(** * git-lfs: the instrumented HTTP client ([lfs/http.go])

    A shallow embedding of the transfer statistics registry, the counting
    body streams, the redirect policy, the header trace with its credential
    redaction and the statistics report, with the properties the
    specification states about them.

    Conventions of the embedding:
    - Go's [int] is a signed 64-bit integer, written as [Z] with the
      wrap-around of each addition spelled out ([int_add]).
    - [time.Time] is a count of nanoseconds since Go's zero time
      (January 1, year 1, UTC), so the zero [time.Time] is [0].
    - A [*http.Response] is a record carrying the identity of the pointer
      ([Response.addr]) beside the fields [http.go] reads through it;
      the two process-wide maps are keyed by that identity.  A nil pointer
      is [None].
    - Library calls whose result the code only consumes ([time.Now],
      the transport, [httputil.DumpRequest], the underlying body stream,
      the iteration order of a Go map) are inputs of the functions below. *)

From Stdlib Require Import ZArith Ascii DecimalString.
From stdpp Require Import gmap strings list fin_maps.

Open Scope Z_scope.

(* ===================================================================== *)
(** ** Machine integers and time                                          *)
(* ===================================================================== *)

(** Go's [int] on a 64-bit platform: two's complement wrap-around. *)
Definition int_wrap (z : Z) : Z := (z + 2 ^ 63) mod 2 ^ 64 - 2 ^ 63.

Definition int_add (a b : Z) : Z := int_wrap (a + b).

Definition int_range (z : Z) : Prop := - 2 ^ 63 <= z < 2 ^ 63.

(** [len(s)] of a string or byte slice, as an [int]. *)
Definition len (s : string) : Z := Z.of_nat (String.length s).

Abbreviation Time := Z (only parsing).

(** The zero value of [time.Time]. *)
Definition zeroTime : Time := 0.

Definition minDuration : Z := - 2 ^ 63.
Definition maxDuration : Z := 2 ^ 63 - 1.

(** [t.Sub(u).Nanoseconds()]: the difference, saturated to the range of a
    [time.Duration] (an [int64] of nanoseconds). *)
Definition Time_Sub (t u : Time) : Z :=
  if t - u <? minDuration then minDuration
  else if maxDuration <? t - u then maxDuration
  else t - u.

(* ===================================================================== *)
(** ** Strings                                                            *)
(* ===================================================================== *)

Definition nl : string := String "010"%char EmptyString.
Definition cr : ascii := "013"%char.
Definition crlf : string := String cr nl.

Definition is_upper (c : ascii) : bool :=
  let n := nat_of_ascii c in (65 <=? n)%nat && (n <=? 90)%nat.

Definition is_lower (c : ascii) : bool :=
  let n := nat_of_ascii c in (97 <=? n)%nat && (n <=? 122)%nat.

Definition lower (c : ascii) : ascii :=
  if is_upper c then ascii_of_nat (nat_of_ascii c + 32) else c.

Definition upper (c : ascii) : ascii :=
  if is_lower c then ascii_of_nat (nat_of_ascii c - 32) else c.

(** [strings.ToLower] on the bytes of an ASCII string (header dumps and
    header values are ASCII; bytes outside A-Z are left as they are). *)
Fixpoint ToLower (s : string) : string :=
  match s with
  | EmptyString => EmptyString
  | String c s' => String (lower c) (ToLower s')
  end.

(** [strings.HasPrefix(s, prefix)]. *)
Definition HasPrefix (s prefix : string) : bool := String.prefix prefix s.

(** [strings.Contains(s, substr)]. *)
Fixpoint Contains (s substr : string) : bool :=
  HasPrefix s substr ||
  match s with
  | EmptyString => false
  | String _ s' => Contains s' substr
  end.

(** [strings.SplitN(s, sep, 2)[0]] for a one-byte separator: the part of
    [s] before the first [sep], all of [s] when there is none. *)
Fixpoint SplitN2_head (s : string) (sep : ascii) : string :=
  match s with
  | EmptyString => EmptyString
  | String c s' => if Ascii.eqb c sep then EmptyString else String c (SplitN2_head s' sep)
  end.

(** [fmt]'s [%d]. *)
Definition fmt_d (z : Z) : string := NilZero.string_of_int (Z.to_int z).

(* ===================================================================== *)
(** ** bufio.Scanner with the default split function (ScanLines)          *)
(* ===================================================================== *)

(** The lines of the input, each without its terminating newline; a final
    line needs no newline, and an empty rest yields no line. *)
Fixpoint splitLines (s : string) : list string :=
  match s with
  | EmptyString => []
  | String c s' =>
      if Ascii.eqb c "010" then EmptyString :: splitLines s'
      else match splitLines s' with
           | [] => [String c EmptyString]
           | l :: ls => String c l :: ls
           end
  end.

(** [dropCR]: a line loses one trailing carriage return. *)
Fixpoint dropCR (s : string) : string :=
  match s with
  | EmptyString => EmptyString
  | String c EmptyString => if Ascii.eqb c cr then EmptyString else s
  | String c s' => String c (dropCR s')
  end.

(** [bufio.MaxScanTokenSize]: the scanner's buffer; a line that does not
    fit stops the scan ([Scan] returns false from then on). *)
Definition MaxScanTokenSize : Z := 65536.

Fixpoint scanTokens (lines : list string) : list string :=
  match lines with
  | [] => []
  | l :: ls =>
      if len l <? MaxScanTokenSize then dropCR l :: scanTokens ls
      else []
  end.

(** The successive values of [scanner.Text()] in [for scanner.Scan()]. *)
Definition Scan (dump : string) : list string := scanTokens (splitLines dump).

(** A text made of lines, each closed by CR LF. *)
Fixpoint headerDump (lines : list string) : string :=
  match lines with
  | [] => EmptyString
  | l :: ls => l +:+ crlf +:+ headerDump ls
  end.

(* ===================================================================== *)
(** ** Configuration flags read by [http.go]                              *)
(* ===================================================================== *)

Record Configuration := {
  isLoggingStats : bool;
  isTracingHttp : bool;
  isDebuggingHttp : bool
}.

(* ===================================================================== *)
(** ** traceHttpDump                                                      *)
(* ===================================================================== *)

(** The body of the loop of [traceHttpDump]: what one scanned line writes
    to standard error. *)
Definition traceHttpDumpLine (Config : Configuration) (direction line : string) : string :=
  if negb (isDebuggingHttp Config) && HasPrefix (ToLower line) "authorization: basic"
  then direction +:+ " Authorization: Basic * * * * *" +:+ nl
  else direction +:+ " " +:+ line +:+ nl.

(** [traceHttpDump direction dump]: the writes to standard error, one per
    scanned line, in order. *)
Definition traceHttpDump (Config : Configuration) (direction dump : string) : list string :=
  map (traceHttpDumpLine Config direction) (Scan dump).

(* ===================================================================== *)
(** ** net/http data: headers, URLs, requests, responses                  *)
(* ===================================================================== *)

Definition is_digit (c : ascii) : bool :=
  let n := nat_of_ascii c in (48 <=? n)%nat && (n <=? 57)%nat.

(** The bytes of an HTTP token (RFC 7230), the only ones a header field
    name may hold. *)
Definition validHeaderFieldByte (c : ascii) : bool :=
  is_upper c || is_lower c || is_digit c ||
  existsb (Ascii.eqb c) (String.list_ascii_of_string "!#$%&'*+-.^_`|~").

Fixpoint canonicalCase (up : bool) (s : string) : string :=
  match s with
  | EmptyString => EmptyString
  | String c s' =>
      String (if up then upper c else lower c) (canonicalCase (Ascii.eqb c "-") s')
  end.

(** [textproto.CanonicalMIMEHeaderKey]: first letter and every letter
    after a hyphen in upper case, the rest in lower case; a key holding a
    byte that is no token byte is returned as it is. *)
Definition CanonicalMIMEHeaderKey (s : string) : string :=
  if forallb validHeaderFieldByte (String.list_ascii_of_string s) then canonicalCase true s else s.

(** [http.Header] is [map[string][]string]; the maps of the requests and
    responses handled here are allocated (not nil). *)
Abbreviation Header := (gmap string (list string)).

(** [h.Get(key)]: the first value under the canonical form of [key]. *)
Definition Header_Get (h : Header) (key : string) : string :=
  match h !! CanonicalMIMEHeaderKey key with
  | Some (v :: _) => v
  | _ => EmptyString
  end.

(** [h.Set(key, value)]: the canonical form of [key] now holds the single
    value [value]. *)
Definition Header_Set (h : Header) (key value : string) : Header :=
  <[CanonicalMIMEHeaderKey key := [value]]> h.

Module URL.
Record t := { Scheme : string; Host : string; Path : string; RawQuery : string }.
End URL.

(** [u.String()] for a URL made of scheme, host, path and query. *)
Definition URL_String (u : URL.t) : string :=
  URL.Scheme u +:+ "://" +:+ URL.Host u +:+ URL.Path u +:+
  (if String.eqb (URL.RawQuery u) "" then "" else "?" +:+ URL.RawQuery u).

(** An error value: [io.EOF], or any other error, told apart by its text. *)
Inductive error := EOF | Err (msg : string).

(** What one call of [Read(b)] on a body stream gives back: the bytes it
    put in [b] (so [n] is their number) and the error beside them. *)
Record ReadResult := { data : string; err : option error }.

Module Request.
(** [Body]: [None] is a nil body; a body stream is given by the results of
    the successive reads the transport makes of it. *)
Record t := {
  Method : string;
  URL : URL.t;
  Header : Header;
  Body : option (list ReadResult)
}.
Definition with_Header (req : t) (h : gmap string (list string)) : t :=
  {| Method := Method req; URL := URL req; Header := h; Body := Body req |}.
End Request.

Module Response.
(** [addr] is the identity of the [*http.Response]; [RequestURL] is
    [res.Request.URL]. *)
Record t := {
  addr : positive;
  StatusCode : Z;
  Header : Header;
  RequestURL : URL.t
}.
End Response.

(** A function of this program that returns, or panics with a run-time
    error. *)
Inductive result (A : Type) := Return (a : A) | Panic (msg : string).
Arguments Return {A} a.
Arguments Panic {A} msg.

(** The texts of the two run-time errors met below. *)
Definition indexOutOfRange : string := "runtime error: index out of range".
Definition nilDereference : string :=
  "runtime error: invalid memory address or nil pointer dereference".

(* ===================================================================== *)
(** ** checkRedirect                                                      *)
(* ===================================================================== *)

(** [req.URL.Scheme != oldest.URL.Scheme || req.URL.Host != oldest.URL.Host]. *)
Definition otherOrigin (req oldest : Request.t) : bool :=
  negb (String.eqb (URL.Scheme (Request.URL req)) (URL.Scheme (Request.URL oldest))) ||
  negb (String.eqb (URL.Host (Request.URL req)) (URL.Host (Request.URL oldest))).

(** The body of [for key, _ := range oldest.Header]; the first branch is
    the [continue]. *)
Definition copyHeader (oldest : Request.t) (req : Request.t) (key : string) : Request.t :=
  if String.eqb key "Authorization" && otherOrigin req oldest
  then req
  else Request.with_Header req
         (Header_Set (Request.Header req) key (Header_Get (Request.Header oldest) key)).

Definition hopLimit : error := Err "stopped after 3 redirects".

(** The outcome of [checkRedirect]: the error it returns, the new request
    as it leaves it, and what it hands to [tracerx.Printf]. *)
Record Redirect := {
  redirectErr : option error;
  redirectReq : Request.t;
  redirectTrace : list string
}.

(** [checkRedirect req via].  [keys] is the order in which [range] visits
    the keys of [oldest.Header]: Go leaves it unspecified, so it is an
    input, any enumeration of the keys of the map ([rangeOrder]). *)
Definition checkRedirect (keys : list string) (req : Request.t) (via : list Request.t)
  : result Redirect :=
  if (3 <=? length via)%nat then
    Return {| redirectErr := Some hopLimit; redirectReq := req; redirectTrace := [] |}
  else
    match via with
    | [] => Panic indexOutOfRange
    | oldest :: _ =>
        let req' := foldl (copyHeader oldest) req keys in
        let oldestUrl := SplitN2_head (URL_String (Request.URL oldest)) "?" in
        let newUrl := SplitN2_head (URL_String (Request.URL req')) "?" in
        Return {| redirectErr := None;
                  redirectReq := req';
                  redirectTrace :=
                    ["api: redirect " +:+ Request.Method oldest +:+ " " +:+ oldestUrl
                       +:+ " to " +:+ newUrl] |}
    end.

(** The orders in which [range m] may visit the keys of a map: each key
    once, in any order. *)
Definition rangeOrder {A} (m : gmap string A) (keys : list string) : Prop :=
  keys ≡ₚ (map_to_list m).*1.

(* ===================================================================== *)
(** ** The registry: httpTransfers and httpTransferBuckets                *)
(* ===================================================================== *)

Record httpTransferStats := {
  HeaderSize : Z;
  BodySize : Z;
  Start : Time;
  Stop : Time
}.

Record httpTransfer := {
  requestStats : httpTransferStats;
  responseStats : httpTransferStats
}.

(** The process-wide state [http.go] reads and writes: the two maps, and
    the two diagnostic sinks (standard error and [tracerx.Printf]), each
    as the list of the texts written so far.  The mutexes guard single map
    accesses and have no part in a sequential run. *)
Record World := {
  httpTransfers : gmap positive httpTransfer;
  httpTransferBuckets : gmap string (list (option Response.t));
  stderr : list string;
  tracerx : list string
}.

Definition with_httpTransfers (w : World) (m : gmap positive httpTransfer) : World :=
  {| httpTransfers := m; httpTransferBuckets := httpTransferBuckets w;
     stderr := stderr w; tracerx := tracerx w |}.

Definition with_httpTransferBuckets (w : World)
    (m : gmap string (list (option Response.t))) : World :=
  {| httpTransfers := httpTransfers w; httpTransferBuckets := m;
     stderr := stderr w; tracerx := tracerx w |}.

(** [fmt.Fprint(os.Stderr, ...)] and [fmt.Fprintf(os.Stderr, ...)]. *)
Definition Fprint_stderr (w : World) (out : list string) : World :=
  {| httpTransfers := httpTransfers w; httpTransferBuckets := httpTransferBuckets w;
     stderr := stderr w ++ out; tracerx := tracerx w |}.

(** [tracerx.Printf]. *)
Definition tracerx_Printf (w : World) (msg : string) : World :=
  {| httpTransfers := httpTransfers w; httpTransferBuckets := httpTransferBuckets w;
     stderr := stderr w; tracerx := tracerx w ++ [msg] |}.

(** [LogTransfer key res]: [httpTransferBuckets[key]] of an absent key is
    the nil slice, to which [append] adds the first element. *)
Definition LogTransfer (Config : Configuration) (key : string) (res : option Response.t)
    (w : World) : World :=
  if isLoggingStats Config then
    with_httpTransferBuckets w
      (<[key := default [] (httpTransferBuckets w !! key) ++ [res]]> (httpTransferBuckets w))
  else w.

(* ===================================================================== *)
(** ** Tracing of requests and responses                                  *)
(* ===================================================================== *)

(** What [http.go] calls and does not define: [traceHttpReq] (another file
    of the package) and the two header dumps of [net/http/httputil], each
    [None] when it returns an error. *)
Record Library := {
  traceHttpReq : Request.t → string;
  DumpRequest : Request.t → option string;
  DumpResponse : Response.t → option string
}.

Definition tracedTypes : list string := ["json"; "text"; "xml"; "html"].

Definition isTraceableContent (h : Header) : bool :=
  let ctype := ToLower (SplitN2_head (Header_Get h "Content-Type") ";") in
  existsb (Contains ctype) tracedTypes.

Definition traceHttpRequest (Config : Configuration) (lib : Library) (req : Request.t)
    (w : World) : World :=
  let w := tracerx_Printf w ("HTTP: " +:+ traceHttpReq lib req) in
  if negb (isTracingHttp Config) then w
  else match DumpRequest lib req with
       | None => w
       | Some dump => Fprint_stderr w (traceHttpDump Config ">" dump)
       end.

Definition traceHttpResponse (Config : Configuration) (lib : Library)
    (res : option Response.t) (w : World) : World :=
  match res with
  | None => w
  | Some res =>
      let w := tracerx_Printf w ("HTTP: " +:+ fmt_d (Response.StatusCode res)) in
      if negb (isTracingHttp Config) then w
      else match DumpResponse lib res with
           | None => w
           | Some dump =>
               let w := Fprint_stderr w
                          [if isTraceableContent (Response.Header res) then nl +:+ nl else nl] in
               Fprint_stderr w (traceHttpDump Config "<" dump)
           end
  end.

(* ===================================================================== *)
(** ** countingReadCloser                                                 *)
(* ===================================================================== *)

(** The wrapper around a body stream.  The embedded [io.ReadCloser] is the
    stream below it, present here through the [ReadResult] each of its
    reads yields. *)
Record countingReadCloser := {
  Count : Z;
  request : option Request.t;
  response : option Response.t;
  isTraceableType : bool;
  useGitTrace : bool
}.

Definition with_Count (c : countingReadCloser) (n : Z) : countingReadCloser :=
  {| Count := n; request := request c; response := response c;
     isTraceableType := isTraceableType c; useGitTrace := useGitTrace c |}.

Definition countingRequest (req : Request.t) : countingReadCloser :=
  {| Count := 0; request := Some req; response := None;
     isTraceableType := isTraceableContent (Request.Header req); useGitTrace := false |}.

Definition countingResponse (res : Response.t) : countingReadCloser :=
  {| Count := 0; request := None; response := Some res;
     isTraceableType := isTraceableContent (Response.Header res); useGitTrace := true |}.

(** [httpTransfer.responseStats.BodySize = c.Count] and
    [httpTransfer.responseStats.Stop = time.Now()]. *)
Definition finalize (t : httpTransfer) (count : Z) (now : Time) : httpTransfer :=
  {| requestStats := requestStats t;
     responseStats := {| HeaderSize := HeaderSize (responseStats t);
                         BodySize := count;
                         Start := Start (responseStats t);
                         Stop := now |} |}.

(** The last block of [Read], entered when [err == io.EOF] and statistics
    are logged. *)
Definition finalizeTransfer (c : countingReadCloser) (now : Time) (w : World) : World :=
  match response c with
  | None => w
  | Some res =>
      match httpTransfers w !! Response.addr res with
      | Some t =>
          with_httpTransfers w
            (<[Response.addr res := finalize t (Count c) now]> (httpTransfers w))
      | None => w
      end
  end.

(** The tracing block of [Read]. *)
Definition traceChunk (Config : Configuration) (c : countingReadCloser) (chunk : string)
    (w : World) : World :=
  if isTraceableType c then
    let w := if useGitTrace c then tracerx_Printf w ("HTTP: " +:+ chunk) else w in
    if isTracingHttp Config then Fprint_stderr w [chunk] else w
  else w.

(** [c.Read(b)], where [r] is what [c.ReadCloser.Read(b)] gives and [now]
    what [time.Now()] gives if this call comes to ask.  Returns the stream
    and the world after the call, and the pair [(n, err)]. *)
Definition Read (Config : Configuration) (now : Time) (r : ReadResult)
    (c : countingReadCloser) (w : World)
  : countingReadCloser * World * (Z * option error) :=
  let n := len (data r) in
  match err r with
  | Some (Err msg) => (c, w, (n, Some (Err msg)))
  | e =>
      let c := with_Count c (int_add (Count c) n) in
      let w := traceChunk Config c (data r) w in
      let w :=
        match e with
        | Some EOF => if isLoggingStats Config then finalizeTransfer c now w else w
        | _ => w
        end in
      (c, w, (n, e))
  end.

(** A caller reading on: the calls made one after the other, each with the
    time at which it runs; the results of the calls are collected. *)
Fixpoint Reads (Config : Configuration) (calls : list (Time * ReadResult))
    (c : countingReadCloser) (w : World)
  : countingReadCloser * World * list (Z * option error) :=
  match calls with
  | [] => (c, w, [])
  | (now, r) :: rest =>
      let '(c, w, out) := Read Config now r c w in
      let '(c, w, outs) := Reads Config rest c w in
      (c, w, out :: outs)
  end.

(* ===================================================================== *)
(** ** HttpClient.Do                                                      *)
(* ===================================================================== *)

(** What [Do] returns: [(res, err)], and the counting stream now standing
    as [res.Body] when the transport succeeded. *)
Record DoResult := {
  doRes : option Response.t;
  doErr : option error;
  doBody : option countingReadCloser
}.

(** [c.Do(req)].  [start] is what [time.Now()] gives, [answer] what the
    transport ([c.Client.Do(req)]) returns; on its way the transport reads
    the request body through the counting stream put in its place. *)
Definition Do (Config : Configuration) (lib : Library) (start : Time)
    (answer : option Response.t * option error) (req : Request.t) (w : World)
  : result (World * DoResult) :=
  let w := traceHttpRequest Config lib req w in
  let crc := countingRequest req in
  let '(crc, w, _) :=
    match Request.Body req with
    | Some reads => Reads Config (map (pair start) reads) crc w
    | None => (crc, w, [])
    end in
  match answer with
  | (res, Some e) => Return (w, {| doRes := res; doErr := Some e; doBody := None |})
  | (None, None) => Panic nilDereference
  | (Some res, None) =>
      let w := traceHttpResponse Config lib (Some res) w in
      let cresp := countingResponse res in
      let w :=
        if isLoggingStats Config then
          let reqHeaderSize :=
            match DumpRequest lib req with Some dump => len dump | None => 0 end in
          let resHeaderSize :=
            match DumpResponse lib res with Some dump => len dump | None => 0 end in
          let reqstats := {| HeaderSize := reqHeaderSize; BodySize := Count crc;
                             Start := zeroTime; Stop := zeroTime |} in
          let resstats := {| HeaderSize := resHeaderSize; BodySize := 0;
                             Start := start; Stop := zeroTime |} in
          let t := {| requestStats := reqstats; responseStats := resstats |} in
          with_httpTransfers w (<[Response.addr res := t]> (httpTransfers w))
        else w in
      Return (w, {| doRes := Some res; doErr := None; doBody := Some cresp |})
  end.

(* ===================================================================== *)
(** ** LogHttpStats                                                       *)
(* ===================================================================== *)

#[export] Instance result_ret : MRet result := λ A a, Return a.
#[export] Instance result_bind : MBind result := λ A B f m,
  match m with Return a => f a | Panic msg => Panic msg end.

Definition errorText (e : error) : string :=
  match e with EOF => "EOF" | Err msg => msg end.

(** What the report takes from outside [http.go]: the outcome of
    [statsLogFile()] (the file it created, by name, or the error), and the
    values of the first line. *)
Record ReportEnv := {
  statsLogFile : string + error;
  ConcurrentTransfers : Z;
  BatchTransfer : bool;
  unixNow : Z;
  Version : string
}.

Definition summaryLine (env : ReportEnv) : string :=
  "concurrent=" +:+ fmt_d (ConcurrentTransfers env) +:+
  " batch=" +:+ (if BatchTransfer env then "true" else "false") +:+
  " time=" +:+ fmt_d (unixNow env) +:+
  " version=" +:+ Version env +:+ nl.

Definition statsLine (key : string) (stats : httpTransfer) (response : Response.t) : string :=
  "key=" +:+ key +:+
  " reqheader=" +:+ fmt_d (HeaderSize (requestStats stats)) +:+
  " reqbody=" +:+ fmt_d (BodySize (requestStats stats)) +:+
  " resheader=" +:+ fmt_d (HeaderSize (responseStats stats)) +:+
  " resbody=" +:+ fmt_d (BodySize (responseStats stats)) +:+
  " restime=" +:+ fmt_d (Time_Sub (Stop (responseStats stats)) (Start (responseStats stats))) +:+
  " status=" +:+ fmt_d (Response.StatusCode response) +:+
  " url=" +:+ URL_String (Response.RequestURL response) +:+ nl.

(** The body of the inner loop: [stats := httpTransfers[response]] is nil
    for a response without a record (and for a nil response, no record
    being kept under nil), and [stats.requestStats] then panics. *)
Definition transferLine (transfers : gmap positive httpTransfer) (key : string)
    (response : option Response.t) : result string :=
  match response with
  | None => Panic nilDereference
  | Some res =>
      match transfers !! Response.addr res with
      | None => Panic nilDereference
      | Some stats => Return (statsLine key stats res)
      end
  end.

(** [for _, response := range responses]. *)
Fixpoint rangeResponses (transfers : gmap positive httpTransfer) (key : string)
    (responses : list (option Response.t)) : result (list string) :=
  match responses with
  | [] => mret []
  | response :: rest =>
      line ← transferLine transfers key response;
      lines ← rangeResponses transfers key rest;
      mret (line :: lines)
  end.

(** [for key, responses := range httpTransferBuckets], the keys visited in
    the order [keys]. *)
Fixpoint rangeBuckets (transfers : gmap positive httpTransfer)
    (buckets : gmap string (list (option Response.t))) (keys : list string)
  : result (list string) :=
  match keys with
  | [] => mret []
  | key :: rest =>
      lines ← rangeResponses transfers key (default [] (buckets !! key));
      more ← rangeBuckets transfers buckets rest;
      mret (lines ++ more)
  end.

(** [LogHttpStats()]: the world after it, and the lines of the file it
    wrote ([None] when it wrote none).  [keys] is the order in which
    [range] visits the buckets, see [rangeOrder]. *)
Definition LogHttpStats (Config : Configuration) (env : ReportEnv) (keys : list string)
    (w : World) : result (World * option (list string)) :=
  if negb (isLoggingStats Config) then Return (w, None)
  else
    match statsLogFile env with
    | inr e =>
        Return (Fprint_stderr w ["Error logging http stats: " +:+ errorText e +:+ nl], None)
    | inl name =>
        lines ← rangeBuckets (httpTransfers w) (httpTransferBuckets w) keys;
        mret (Fprint_stderr w ["HTTP Stats logged to file " +:+ name +:+ nl],
              Some (summaryLine env :: lines))
    end.

(* ===================================================================== *)
(** ** Notions the properties are stated with                             *)
(* ===================================================================== *)

(** A line of a header dump that the scanner takes whole: no newline in
    it, and room in the buffer for the line and its carriage return. *)
Definition wellFormedLine (l : string) : Prop :=
  forallb (λ c, negb (Ascii.eqb c "010")) (String.list_ascii_of_string l) = true ∧
  len l + 1 < MaxScanTokenSize.

(** The first value a header map holds under a key taken as it is. *)
Definition firstValue (h : Header) (key : string) : string :=
  match h !! key with
  | Some (v :: _) => v
  | _ => EmptyString
  end.

(** Which keys the loop copies: all but [Authorization] on a change of
    scheme or host. *)
Definition copied (oldest req : Request.t) (key : string) : bool :=
  negb (String.eqb key "Authorization" && otherOrigin req oldest).

(** The bytes a call adds to [Count]: those it returns, unless it returns
    them beside an error other than [io.EOF]. *)
Definition counted (out : Z * option error) : Z :=
  match out.2 with
  | Some (Err _) => 0
  | _ => out.1
  end.

Definition countedBytes (outs : list (Z * option error)) : Z :=
  foldr (λ out total, counted out + total) 0 outs.

(** The bytes the calls returned, all of them. *)
Definition returnedBytes (outs : list (Z * option error)) : Z :=
  foldr (λ out total, out.1 + total) 0 outs.

(** The world when the transport comes back: the request was traced and
    its body, if any, read through the counting stream. *)
Definition afterTransport (Config : Configuration) (lib : Library) (start : Time)
    (req : Request.t) (w : World) : countingReadCloser * World :=
  let w := traceHttpRequest Config lib req w in
  match Request.Body req with
  | Some reads => (Reads Config (map (pair start) reads) (countingRequest req) w).1
  | None => (countingRequest req, w)
  end.

(** A bucketed response has a record: it is not nil and
    [httpTransfers] holds its identity. *)
Definition hasRecord (transfers : gmap positive httpTransfer)
    (response : option Response.t) : bool :=
  match response with
  | Some res => bool_decide (is_Some (transfers !! Response.addr res))
  | None => false
  end.

(** The bucketed transfers in the order of a visit: bucket after bucket
    as [keys] lists them, each bucket in the order of its slice. *)
Definition bucketed (buckets : gmap string (list (option Response.t)))
    (keys : list string) : list (string * option Response.t) :=
  flat_map (λ key, pair key <$> default [] (buckets !! key)) keys.

(** How many transfers the buckets hold. *)
Definition bucketedCount (buckets : gmap string (list (option Response.t))) : nat :=
  sum_list (length <$> (map_to_list buckets).*2).

(** The line of one bucketed transfer: that of its record and response. *)
Definition reportLine (transfers : gmap positive httpTransfer)
    (entry : string * option Response.t) (line : string) : Prop :=
  ∃ res stats, entry.2 = Some res ∧
               transfers !! Response.addr res = Some stats ∧
               line = statsLine entry.1 stats res.

(* ===================================================================== *)
(** ** The transport's redirect loop                                      *)
(* ===================================================================== *)

(** What the network answers to one request sent: a response that ends
    the operation, a redirect (with the request the client builds for its
    [Location]), or a failure. *)
Inductive Reply :=
  | Answers (res : Response.t)
  | Redirects (res : Response.t) (next : Request.t)
  | Fails (e : error).

(** [net/http]'s [Client.Do] as far as redirects go (library code, after
    its documentation): each request is sent and joins the chain of the
    requests made; before a redirect is followed, [CheckRedirect] is
    called with the request to come and the chain so far, oldest first,
    and its error ends the operation with the last response.  Returns the
    requests sent, in order, and [(res, err)]; [None] when [fuel] calls of
    the network were not enough (or the policy panicked). *)
Fixpoint follow (send : Request.t → Reply) (order : Header → list string)
    (fuel : nat) (via : list Request.t) (req : Request.t)
  : option (list Request.t * (option Response.t * option error)) :=
  match fuel with
  | O => None
  | S fuel =>
      let via := via ++ [req] in
      match send req with
      | Answers res => Some (via, (Some res, None))
      | Fails e => Some (via, (None, Some e))
      | Redirects res next =>
          match checkRedirect (order (Request.Header (hd req via))) next via with
          | Panic _ => None
          | Return r =>
              match redirectErr r with
              | Some e => Some (via, (Some res, Some e))
              | None => follow send order fuel via (redirectReq r)
              end
          end
      end
  end.

(* ===================================================================== *)
(** ** Sample runs                                                        *)
(* ===================================================================== *)

Definition statsOn : Configuration :=
  {| isLoggingStats := true; isTracingHttp := false; isDebuggingHttp := false |}.

Definition statsOff : Configuration :=
  {| isLoggingStats := false; isTracingHttp := false; isDebuggingHttp := false |}.

Definition tracing : Configuration :=
  {| isLoggingStats := false; isTracingHttp := true; isDebuggingHttp := false |}.

Definition debugging : Configuration :=
  {| isLoggingStats := false; isTracingHttp := true; isDebuggingHttp := true |}.

Definition hostA : URL.t :=
  {| URL.Scheme := "https"; URL.Host := "host"; URL.Path := "/a"; URL.RawQuery := "" |}.

Definition otherB : URL.t :=
  {| URL.Scheme := "https"; URL.Host := "other"; URL.Path := "/b"; URL.RawQuery := "" |}.

(** The request of the specification's example: a GET to [https://host/a]
    with [Authorization: Basic abcd]. *)
Definition original : Request.t :=
  {| Request.Method := "GET"; Request.URL := hostA;
     Request.Header := {[ "Authorization" := ["Basic abcd"];
                          "Accept" := ["application/vnd.git-lfs+json"] ]};
     Request.Body := None |}.

(** The request for the redirect to [https://other/b], with fresh
    headers. *)
Definition redirected : Request.t :=
  {| Request.Method := "GET"; Request.URL := otherB;
     Request.Header := ∅; Request.Body := None |}.


Definition requestDump : string :=
  "GET /a HTTP/1.1" +:+ crlf +:+ "Host: host" +:+ crlf +:+
  "Authorization: Basic abcd" +:+ crlf +:+ crlf.

Definition responseDump : string := "HTTP/1.1 200 OK" +:+ crlf +:+ crlf.

Definition lib : Library :=
  {| traceHttpReq := λ req, Request.Method req +:+ " " +:+ URL_String (Request.URL req);
     DumpRequest := λ _, Some requestDump;
     DumpResponse := λ _, Some responseDump |}.

Definition download : Response.t :=
  {| Response.addr := 1; Response.StatusCode := 200;
     Response.Header := {[ "Content-Type" := ["application/octet-stream"] ]};
     Response.RequestURL := hostA |}.

Definition upload : Response.t :=
  {| Response.addr := 2; Response.StatusCode := 201;
     Response.Header := {[ "Content-Type" := ["application/vnd.git-lfs+json"] ]};
     Response.RequestURL := otherB |}.

Definition noWorld : World :=
  {| httpTransfers := ∅; httpTransferBuckets := ∅; stderr := []; tracerx := [] |}.

(** A time in October 2015, in nanoseconds since year 1. *)
Definition start0 : Time := 63581241600000000000.

(** The world after [Do] returned [res] at [start]. *)
Definition worldAfterDo (start : Time) (res : Response.t) (w : World) : World :=
  match Do statsOn lib start (Some res, None) original w with
  | Return (w', _) => w'
  | Panic _ => w
  end.

(** The record [Do] makes for [download]. *)
Definition openedRecord : httpTransfer :=
  {| requestStats := {| HeaderSize := len requestDump; BodySize := 0;
                        Start := zeroTime; Stop := zeroTime |};
     responseStats := {| HeaderSize := len responseDump; BodySize := 0;
                         Start := start0; Stop := zeroTime |} |}.

Definition opened : World := worldAfterDo start0 download noWorld.

Definition endOfStream : ReadResult := {| data := ""; err := Some EOF |}.

Definition timedOut : ReadResult := {| data := "hello"; err := Some (Err "i/o timeout") |}.

Definition chunk : ReadResult := {| data := "hello"; err := None |}.

(** Two transfers with their records, [download] read to its end and
    [upload] never read, logged under a bucket each, [download] first. *)
Definition twoTransfers : World :=
  let w := worldAfterDo start0 download noWorld in
  let w := worldAfterDo (start0 + 5) upload w in
  let w := (Reads statsOn [(start0 + 10, chunk); (start0 + 20, endOfStream)]
              (countingResponse download) w).1.2 in
  let w := LogTransfer statsOn "download" (Some download) w in
  LogTransfer statsOn "upload" (Some upload) w.

Definition reportEnv : ReportEnv :=
  {| statsLogFile := inl "http-1445000000.log"; ConcurrentTransfers := 3;
     BatchTransfer := true; unixNow := 1445000000; Version := "1.0.0" |}.

(** A first call of [Read] that meets the end of the stream of
    [download], and a second one later on. *)
Definition firstEOF : countingReadCloser * World * (Z * option error) :=
  Read statsOn (start0 + 10) endOfStream (countingResponse download) opened.

Definition secondEOF : countingReadCloser * World * (Z * option error) :=
  Read statsOn (start0 + 20) endOfStream firstEOF.1.1 firstEOF.1.2.

(** A call that returns five bytes beside a timeout, then the end of the
    stream. *)
Definition readsWithTimeout : countingReadCloser * World * list (Z * option error) :=
  Reads statsOn [(start0 + 10, timedOut); (start0 + 20, endOfStream)]
    (countingResponse download) opened.

(** A response logged under a bucket without [Do] having made its
    record. *)
Definition orphanBucket : World :=
  LogTransfer statsOn "download" (Some download) noWorld.

(* ===================================================================== *)
(** ** Configuration.HttpClient: the clients by host                      *)
(* ===================================================================== *)

(** What [HttpClient] reads of the configuration through functions other
    files of the package define: [c.GitConfigInt(key, def)],
    [c.ConcurrentTransfers()], [isCertVerificationDisabledForHost(host)]
    and [getRootCAsForHost(host)] (a pool of certificates, by its
    identity, or nil). *)
Module Settings.
Record t := {
  GitConfigInt : string → Z → Z;
  ConcurrentTransfers : Z;
  isCertVerificationDisabledForHost : string → bool;
  getRootCAsForHost : string → option positive
}.
End Settings.

(** [time.Second], in the nanoseconds of a [time.Duration]. *)
Definition Second : Z := 1000000000.

(** [time.Duration(n) * time.Second]: a product of [int64]. *)
Definition seconds (n : Z) : Z := int_wrap (n * Second).

(** An [*HttpClient]: [instance] is the identity of the pointer; the
    other fields are those of its [http.Transport] that vary (the proxy is
    always [http.ProxyFromEnvironment], the redirect policy always
    [checkRedirect]). *)
Record HttpClient := {
  instance : positive;
  DialTimeout : Z;
  DialKeepAlive : Z;
  TLSHandshakeTimeout : Z;
  MaxIdleConnsPerHost : Z;
  InsecureSkipVerify : bool;
  RootCAs : option positive
}.

(** The field [httpClients] of the configuration ([None] is the nil map
    it starts as), and the next identity a new client gets. *)
Record Clients := {
  httpClients : option (gmap string HttpClient);
  nextInstance : positive
}.

Definition noClients : Clients := {| httpClients := None; nextInstance := 1 |}.

(** [c.HttpClient(host)]: the state after the call and the client
    returned. *)
Definition HttpClient_for (s : Settings.t) (host : string) (c : Clients)
  : Clients * HttpClient :=
  let clients := default ∅ (httpClients c) in
  match clients !! host with
  | Some client => ({| httpClients := Some clients; nextInstance := nextInstance c |}, client)
  | None =>
      let dialtime := Settings.GitConfigInt s "lfs.dialtimeout" 30 in
      let keepalivetime := Settings.GitConfigInt s "lfs.keepalive" 1800 in
      let tlstime := Settings.GitConfigInt s "lfs.tlstimeout" 30 in
      let disabled := Settings.isCertVerificationDisabledForHost s host in
      let client :=
        {| instance := nextInstance c;
           DialTimeout := seconds dialtime;
           DialKeepAlive := seconds keepalivetime;
           TLSHandshakeTimeout := seconds tlstime;
           MaxIdleConnsPerHost := Settings.ConcurrentTransfers s;
           InsecureSkipVerify := disabled;
           RootCAs := if disabled then None else Settings.getRootCAsForHost s host |} in
      ({| httpClients := Some (<[host := client]> clients);
          nextInstance := Pos.succ (nextInstance c) |}, client)
  end.

(** Calls of [HttpClient] one after the other, each under the settings of
    its time; the clients returned. *)
Fixpoint HttpClient_calls (calls : list (Settings.t * string)) (c : Clients)
  : Clients * list HttpClient :=
  match calls with
  | [] => (c, [])
  | (s, host) :: rest =>
      let '(c, client) := HttpClient_for s host c in
      let '(c, clients) := HttpClient_calls rest c in
      (c, client :: clients)
  end.

(** The client the state holds for a host. *)
Definition cached (c : Clients) (host : string) : option HttpClient :=
  httpClients c ≫= (.!! host).

(** Every client of the state was given an identity below the next one,
    and two hosts never share an identity. *)
Definition distinctInstances (c : Clients) : Prop :=
  (∀ host client, cached c host = Some client →
     (instance client < nextInstance c)%positive) ∧
  (∀ host1 host2 client1 client2,
     cached c host1 = Some client1 → cached c host2 = Some client2 →
     instance client1 = instance client2 → host1 = host2).

(* ===================================================================== *)
(** ** script/integration.go: the choice of the test files                *)
(* ===================================================================== *)

Module Integration.

(** [testPattern], the regular expression
    [test[/\\]test-([a-z\-]+)\.sh$], as a matcher. *)

(** A byte of the class [[a-z\-]]. *)
Definition isNameByte (c : ascii) : bool := is_lower c || Ascii.eqb c "-".

(** [[a-z\-]+\.sh$] from the start of [s]; [seen] tells that a byte of the
    class was read already.  No byte of [.sh] is in the class, so the run
    of the class ends where the first other byte stands. *)
Fixpoint matchName (seen : bool) (s : string) : bool :=
  match s with
  | EmptyString => false
  | String c s' =>
      if isNameByte c then matchName true s' else seen && String.eqb s ".sh"
  end.

(** [s] without its prefix [p], when it has it. *)
Fixpoint stripPrefix (p s : string) : option string :=
  match p, s with
  | EmptyString, _ => Some s
  | String a p', String b s' => if Ascii.eqb a b then stripPrefix p' s' else None
  | String _ _, EmptyString => None
  end.

(** The whole expression from the start of [s]. *)
Definition matchHere (s : string) : bool :=
  match stripPrefix "test" s with
  | Some (String sep rest) =>
      (Ascii.eqb sep "/" || Ascii.eqb sep "\") &&
      match stripPrefix "test-" rest with
      | Some name => matchName false name
      | None => false
      end
  | _ => false
  end.

(** [testPattern.MatchString(path)]: the expression is not anchored at its
    start, so it may match from any place of [path]. *)
Fixpoint MatchString (path : string) : bool :=
  matchHere path ||
  match path with
  | EmptyString => false
  | String _ path' => MatchString path'
  end.

(** One call of the function [filepath.Walk] is given: the path, whether
    [info.IsDir()], and whether [err != nil]. *)
Record Visit := { path : string; IsDir : bool; failed : bool }.

(** [fmt.Println(a, b)]. *)
Definition Println2 (a b : string) : string := a +:+ " " +:+ b +:+ nl.

(** The function [allTestFiles] passes to [filepath.Walk], on one visit:
    what it prints and the files after it.  It returns nil on every path,
    so the walk goes on to its end. *)
Definition visit (debugging : bool) (files : list string) (v : Visit)
  : list string * list string :=
  let found := if debugging then [Println2 "FOUND:" (path v)] else [] in
  if failed v || IsDir v || negb (MatchString (path v)) then (found, files)
  else (found ++ (if debugging then [Println2 "MATCHING:" (path v)] else []),
        files ++ [path v]).

(** [allTestFiles()], for the visits [filepath.Walk("test", ...)] makes:
    what is printed, and the files. *)
Fixpoint allTestFiles_from (debugging : bool) (files : list string) (walk : list Visit)
  : list string * list string :=
  match walk with
  | [] => ([], files)
  | v :: rest =>
      let '(out, files) := visit debugging files v in
      let '(outs, files) := allTestFiles_from debugging files rest in
      (out ++ outs, files)
  end.

Definition allTestFiles (debugging : bool) (walk : list Visit) : list string * list string :=
  allTestFiles_from debugging [] walk.

(** [fileMap]: every test file mapped to true. *)
Definition fileMapOf (files : list string) : gmap string bool :=
  foldl (λ m file, <[file := true]> m) ∅ files.

(** The body of [for _, arg := range os.Args]. *)
Definition selectArg (fileMap : gmap string bool) (files : list string) (arg : string)
  : list string :=
  let fullname := "test/test-" +:+ arg +:+ ".sh" in
  if default false (fileMap !! fullname) then files ++ [fullname] else files.

(** [testFiles()], for the arguments [os.Args] of the process and the
    visits of the walk: what is printed, and the files chosen. *)
Definition testFiles (debugging : bool) (Args : list string) (walk : list Visit)
  : list string * list string :=
  let '(out, all) := allTestFiles debugging walk in
  if (length Args <? 4)%nat then (out, all)
  else (out, foldl (selectArg (fileMapOf all)) [] Args).

(** The name [testFiles] makes of an argument. *)
Definition fullname (arg : string) : string := "test/test-" +:+ arg +:+ ".sh".

(** A visit that gives a test file: no error, no directory, and a path
    [testPattern] matches. *)
Definition isTestFile (v : Visit) : bool :=
  negb (failed v) && negb (IsDir v) && MatchString (path v).

(** A name the class [[a-z\-]+] matches: not empty, of its bytes only. *)
Definition isName (name : string) : Prop :=
  name ≠ EmptyString ∧ forallb isNameByte (String.list_ascii_of_string name) = true.

(** The two library functions [sendTestOutput] calls:
    [strings.TrimSpace] and [filepath.Base]. *)
Record Strings := {
  TrimSpace : string → string;
  Base : string → string
}.

(** The package variables [sendTestOutput] reads and writes, and what it
    printed. *)
Record Globals := { debugging : bool; erroring : bool; stdout : list string }.

(** [sendTestOutput(output, testname, buf, err)] with the text of [buf]:
    the globals after the call and the message sent on [output]. *)
Definition sendTestOutput (lib : Strings) (g : Globals) (testname buf : string)
    (err : option error) : Globals * string :=
  let cli := TrimSpace lib buf in
  let cli := if len cli =? 0 then "<no output for " +:+ testname +:+ ">" else cli in
  match err with
  | None => (g, cli)
  | Some e =>
      let basetestname := Base lib testname in
      let out := if debugging g
                 then ["Error on " +:+ basetestname +:+ ": " +:+ errorText e +:+ nl]
                 else [] in
      ({| debugging := debugging g; erroring := true; stdout := stdout g ++ out |},
       "error: " +:+ basetestname +:+ " => " +:+ errorText e +:+ nl +:+ cli)
  end.

(** The calls of [sendTestOutput] of a run, in the order they happen to
    be made: the globals after them and the messages sent. *)
Fixpoint sendTestOutputs (lib : Strings) (g : Globals)
    (calls : list (string * string * option error)) : Globals * list string :=
  match calls with
  | [] => (g, [])
  | (testname, buf, err) :: rest =>
      let '(g, msg) := sendTestOutput lib g testname buf err in
      let '(g, msgs) := sendTestOutputs lib g rest in
      (g, msg :: msgs)
  end.

End Integration.
(* ===================================================================== *)
(** ** Programs using the package                                         *)
(* ===================================================================== *)

(** One call of a function of [http.go] that works on the registry, with
    what the world outside gives it.  The stream a call of [Read] is made
    on may be any. *)
Inductive Call :=
  | CallDo (lib : Library) (start : Time) (answer : option Response.t * option error)
      (req : Request.t)
  | CallRead (now : Time) (r : ReadResult) (c : countingReadCloser)
  | CallLogTransfer (key : string) (res : option Response.t)
  | CallLogHttpStats (env : ReportEnv) (keys : list string).

(** The world after one call. *)
Definition call (Config : Configuration) (k : Call) (w : World) : result World :=
  match k with
  | CallDo lib start answer req => out ← Do Config lib start answer req w; mret out.1
  | CallRead now r c => Return (Read Config now r c w).1.2
  | CallLogTransfer key res => Return (LogTransfer Config key res w)
  | CallLogHttpStats env keys => out ← LogHttpStats Config env keys w; mret out.1
  end.

(** The world after calls made one after the other; a panic ends them. *)
Fixpoint calls (Config : Configuration) (ks : list Call) (w : World) : result World :=
  match ks with
  | [] => Return w
  | k :: ks => w ← call Config k w; calls Config ks w
  end.

Definition isLogTransfer (k : Call) : bool :=
  match k with CallLogTransfer _ _ => true | _ => false end.

(** The size a header dump counts for: zero when the dump failed. *)
Definition dumpSize (dump : option string) : Z :=
  match dump with Some dump => len dump | None => 0 end.

(** What the calls of [Read] on a stream return, for the results of the
    stream below. *)
Definition readResults (reads : list ReadResult) : list (Z * option error) :=
  (λ r, (len (data r), err r)) <$> reads.


(** No byte of the string is [c]. *)
Definition free_of (c : ascii) (s : string) : Prop :=
  forallb (λ x, negb (Ascii.eqb x c)) (String.list_ascii_of_string s) = true.

(** The fields of a record that no end of stream rewrites. *)
Definition sameOpening (t' t : httpTransfer) : Prop :=
  requestStats t' = requestStats t ∧
  HeaderSize (responseStats t') = HeaderSize (responseStats t) ∧
  Start (responseStats t') = Start (responseStats t).

(** The record [Do] makes for a response: the sizes of the two header
    dumps, the bytes counted on the request body, the start time. *)
Definition openingRecord (lib : Library) (start : Time) (res : Response.t)
    (req : Request.t) : httpTransfer :=
  {| requestStats :=
       {| HeaderSize := dumpSize (DumpRequest lib req);
          BodySize := int_wrap (countedBytes (readResults (default [] (Request.Body req))));
          Start := zeroTime; Stop := zeroTime |};
     responseStats :=
       {| HeaderSize := dumpSize (DumpResponse lib res);
          BodySize := 0; Start := start; Stop := zeroTime |} |}.

(** Records stay and buckets grow at their end, from a world to a later one. *)
Definition grows (w w' : World) : Prop :=
  (∀ a : positive, is_Some (httpTransfers w !! a) → is_Some (httpTransfers w' !! a)) ∧
  (∀ key responses, httpTransferBuckets w !! key = Some responses →
     ∃ more, httpTransferBuckets w' !! key = Some (responses ++ more)).


(* ===================================================================== *)
(** ** Further sample runs                                                *)
(* ===================================================================== *)

(** A GET to a signed URL, [https://host/a?token=secret]. *)
Definition signedA : URL.t :=
  {| URL.Scheme := "https"; URL.Host := "host"; URL.Path := "/a";
     URL.RawQuery := "token=secret" |}.

Definition signedOriginal : Request.t :=
  {| Request.Method := "GET"; Request.URL := signedA;
     Request.Header := {[ "Accept" := ["application/vnd.git-lfs+json"] ]};
     Request.Body := None |}.

(** A request whose header map was also written under a key in lower
    case, beside the canonical one. *)
Definition spelledOriginal : Request.t :=
  {| Request.Method := "GET"; Request.URL := hostA;
     Request.Header := {[ "Authorization" := ["Basic abcd"];
                          "authorization" := ["Basic abcd"] ]};
     Request.Body := None |}.


(** A program: the body of [download] read to its end, the transfer
    logged, the report written, and a second request answered. *)
Definition sampleCalls : list Call :=
  [CallRead (start0 + 10) chunk (countingResponse download);
   CallRead (start0 + 20) endOfStream
     (Read statsOn (start0 + 10) chunk (countingResponse download) opened).1.1;
   CallLogTransfer "download" (Some download);
   CallLogHttpStats reportEnv ["download"];
   CallDo lib (start0 + 30) (Some upload, None) original].

Definition afterSampleCalls : World :=
  match calls statsOn sampleCalls opened with
  | Return w => w
  | Panic _ => opened
  end.

(** Settings with the defaults, and calls of [HttpClient] for two hosts. *)
Definition defaults : Settings.t :=
  {| Settings.GitConfigInt := λ _ def, def;
     Settings.ConcurrentTransfers := 3;
     Settings.isCertVerificationDisabledForHost := λ _, false;
     Settings.getRootCAsForHost := λ _, None |}.

Definition clientCalls : list (Settings.t * string) :=
  [(defaults, "host"); (defaults, "other:443"); (defaults, "host")].

(** The arguments of [script -cmd integration push], and the walk of a
    [test] directory whose paths are spelled with backslashes. *)
Definition pushArgs : list string := ["script"; "-cmd"; "integration"; "push"].

Definition backslashWalk : list Integration.Visit :=
  [ {| Integration.path := "test"; Integration.IsDir := true;
       Integration.failed := false |};
    {| Integration.path := "test\test-push.sh"; Integration.IsDir := false;
       Integration.failed := false |};
    {| Integration.path := "test\testhelpers.sh"; Integration.IsDir := false;
       Integration.failed := false |} ].

(** The same directory with its paths spelled with slashes, and the
    arguments of [script -cmd integration]. *)
Definition slashWalk : list Integration.Visit :=
  [ {| Integration.path := "test"; Integration.IsDir := true;
       Integration.failed := false |};
    {| Integration.path := "test/test-pull.sh"; Integration.IsDir := false;
       Integration.failed := false |};
    {| Integration.path := "test/test-push.sh"; Integration.IsDir := false;
       Integration.failed := false |};
    {| Integration.path := "test/testhelpers.sh"; Integration.IsDir := false;
       Integration.failed := false |} ].

Definition allArgs : list string := ["script"; "-cmd"; "integration"].

(** The header of a binary content whose file name ends in [.text]. *)
Definition attachmentHeader : Header :=
  {[ "Content-Type" := ["application/octet-stream; name=notes.text"] ]}.
(* ===================================================================== *)
(** * Properties                                                          *)
(* ===================================================================== *)

(** ** The model on small inputs *)

Example int_add_wraps : int_add (2 ^ 63 - 1) 1 = - 2 ^ 63.
Proof. reflexivity. Qed.

Example Time_Sub_of_zero_stop : Time_Sub zeroTime start0 = minDuration.
Proof. reflexivity. Qed.

Example CanonicalMIMEHeaderKey_content_type :
  CanonicalMIMEHeaderKey "content-TYPE" = "Content-Type".
Proof. reflexivity. Qed.

Example CanonicalMIMEHeaderKey_no_token :
  CanonicalMIMEHeaderKey "not a token" = "not a token".
Proof. reflexivity. Qed.

Example Scan_requestDump :
  Scan requestDump = ["GET /a HTTP/1.1"; "Host: host"; "Authorization: Basic abcd"; ""].
Proof. reflexivity. Qed.

Example traceHttpDump_requestDump :
  traceHttpDump tracing ">" requestDump
  = ["> GET /a HTTP/1.1" +:+ nl; "> Host: host" +:+ nl;
     "> Authorization: Basic * * * * *" +:+ nl; "> " +:+ nl].
Proof. reflexivity. Qed.

Example isTraceableContent_by_type :
  isTraceableContent (Response.Header upload) = true ∧
  isTraceableContent (Response.Header download) = false.
Proof. split; reflexivity. Qed.

Example Do_opens_the_record :
  httpTransfers opened !! Response.addr download = Some openedRecord.
Proof. reflexivity. Qed.

Example requestDump_lines :
  requestDump
  = headerDump ["GET /a HTTP/1.1"; "Host: host"; "Authorization: Basic abcd"; ""].
Proof. reflexivity. Qed.

Example follow_endless_redirects :
  ∃ sent, follow (λ _, Redirects download redirected) (λ h, (map_to_list h).*1)
            10 [] original
          = Some (sent, (Some download, Some hopLimit)) ∧
          length sent = 3%nat.
Proof. vm_compute. eexists. split; reflexivity. Qed.

Example redirect_trace_has_no_query :
  SplitN2_head (URL_String {| URL.Scheme := "https"; URL.Host := "host";
                              URL.Path := "/a"; URL.RawQuery := "token=1" |}) "?"
  = "https://host/a".
Proof. reflexivity. Qed.

(** ** Strings and the header trace *)

Lemma ToLower_app (a b : string) : ToLower (a +:+ b) = ToLower a +:+ ToLower b.
Proof. induction a as [|c a IH]; simpl; [done | by rewrite IH]. Qed.

Lemma HasPrefix_app_same (a s p : string) : HasPrefix (a +:+ s) (a +:+ p) = HasPrefix s p.
Proof.
  unfold HasPrefix. induction a as [|c a IH]; simpl; [done |].
  destruct (Ascii.ascii_dec c c); [done | congruence].
Qed.

Lemma traceHttpDump_lookup Config direction dump (i : nat) :
  traceHttpDump Config direction dump !! i
  = traceHttpDumpLine Config direction <$> (Scan dump !! i).
Proof. unfold traceHttpDump. apply list_lookup_fmap. Qed.

Lemma authorization_basic_line (name value : string) :
  ToLower name = "authorization" →
  HasPrefix (ToLower value) "basic" = true →
  HasPrefix (ToLower (name +:+ ": " +:+ value)) "authorization: basic" = true.
Proof.
  intros Hname Hvalue.
  rewrite !ToLower_app, Hname.
  change "authorization: basic" with ("authorization" +:+ ": " +:+ "basic").
  by rewrite !HasPrefix_app_same.
Qed.

(** C4. In the dump of the headers, the line of a header named
    [Authorization] (in any case) whose value begins with [Basic] (in any
    case) is written as the fixed placeholder, the same for every
    credential, unless [isDebuggingHttp] is set; with [isDebuggingHttp]
    set the line is written as it is, value included. *)
Theorem traceHttpDump_redacts_basic_authorization
    Config direction dump (i : nat) (name value : string) :
  Scan dump !! i = Some (name +:+ ": " +:+ value) →
  ToLower name = "authorization" →
  HasPrefix (ToLower value) "basic" = true →
  traceHttpDump Config direction dump !! i =
    Some (if isDebuggingHttp Config
          then direction +:+ " " +:+ (name +:+ ": " +:+ value) +:+ nl
          else direction +:+ " Authorization: Basic * * * * *" +:+ nl).
Proof.
  intros Hline Hname Hvalue.
  rewrite traceHttpDump_lookup, Hline. simpl. f_equal.
  unfold traceHttpDumpLine.
  rewrite (authorization_basic_line _ _ Hname Hvalue).
  by destruct (isDebuggingHttp Config).
Qed.

Lemma append_assoc (a b c : string) : (a +:+ b) +:+ c = a +:+ b +:+ c.
Proof.
  induction a as [|x a IH]; [done |].
  cbv [String.append]. fold String.append. by rewrite IH.
Qed.

Lemma splitLines_line (l rest : string) :
  forallb (λ c, negb (Ascii.eqb c "010")) (String.list_ascii_of_string l) = true →
  splitLines (l +:+ String "010" rest) = l :: splitLines rest.
Proof.
  induction l as [|c l IH]; simpl; [done |].
  intros [Hc Hl]%andb_prop. rewrite (IH Hl).
  by destruct (Ascii.eqb c "010").
Qed.

Lemma dropCR_snoc (l : string) : dropCR (l +:+ String cr EmptyString) = l.
Proof.
  induction l as [|c l IH]; [done |].
  simpl. rewrite IH. by destruct l.
Qed.

Lemma len_snoc (l : string) c : len (l +:+ String c EmptyString) = len l + 1.
Proof.
  unfold len. induction l as [|c' l IH]; simpl String.length in *; lia.
Qed.

Lemma forallb_snoc_cr (l : string) :
  forallb (λ c, negb (Ascii.eqb c "010")) (String.list_ascii_of_string l) = true →
  forallb (λ c, negb (Ascii.eqb c "010"))
    (String.list_ascii_of_string (l +:+ String cr EmptyString)) = true.
Proof.
  induction l as [|c l IH]; simpl; [done |].
  intros [Hc Hl]%andb_prop. by rewrite Hc, IH.
Qed.

(** The scanner gives back the lines of a well-formed header dump. *)
Lemma Scan_headerDump (lines : list string) :
  Forall wellFormedLine lines → Scan (headerDump lines) = lines.
Proof.
  unfold Scan. induction 1 as [|l lines [Hnl Hlen] _ IH]; [done |].
  simpl headerDump. unfold crlf.
  replace (l +:+ String cr nl +:+ headerDump lines)
    with ((l +:+ String cr EmptyString) +:+ String "010" (headerDump lines)).
  - rewrite splitLines_line by by apply forallb_snoc_cr.
    simpl scanTokens. rewrite len_snoc.
    destruct (Z.ltb_spec (len l + 1) MaxScanTokenSize) as [_ | ?]; [| lia].
    by rewrite dropCR_snoc, IH.
  - rewrite append_assoc. reflexivity.
Qed.

(** On such a dump the trace redacts the line of every header named
    [Authorization] with a [Basic] value, wherever it stands. *)
Lemma traceHttpDump_headerDump Config direction lines (i : nat) name value :
  Forall wellFormedLine lines →
  lines !! i = Some (name +:+ ": " +:+ value) →
  ToLower name = "authorization" →
  HasPrefix (ToLower value) "basic" = true →
  isDebuggingHttp Config = false →
  traceHttpDump Config direction (headerDump lines) !! i
  = Some (direction +:+ " Authorization: Basic * * * * *" +:+ nl).
Proof.
  intros Hlines Hline Hname Hvalue Hquiet.
  rewrite traceHttpDump_lookup, (Scan_headerDump _ Hlines), Hline. simpl.
  unfold traceHttpDumpLine.
  by rewrite (authorization_basic_line _ _ Hname Hvalue), Hquiet.
Qed.

(** ** The redirect policy *)



Lemma rangeOrder_elem_of {A} (m : gmap string A) keys key :
  rangeOrder m keys → key ∈ keys ↔ is_Some (m !! key).
Proof.
  unfold rangeOrder. intros ->. rewrite list_elem_of_fmap. split.
  - intros [[k a] [-> Hin]]. apply elem_of_map_to_list in Hin. by exists a.
  - intros [a Ha]. exists (key, a). split; [done |]. by apply elem_of_map_to_list.
Qed.

Lemma rangeOrder_NoDup {A} (m : gmap string A) keys : rangeOrder m keys → NoDup keys.
Proof. unfold rangeOrder. intros ->. apply NoDup_fst_map_to_list. Qed.

Lemma copyHeader_URL oldest req key :
  Request.URL (copyHeader oldest req key) = Request.URL req.
Proof. unfold copyHeader. by case_match. Qed.

Lemma copyHeader_otherOrigin oldest req key :
  otherOrigin (copyHeader oldest req key) oldest = otherOrigin req oldest.
Proof. unfold otherOrigin. by rewrite copyHeader_URL. Qed.

Lemma copyHeaders_URL oldest keys req :
  Request.URL (foldl (copyHeader oldest) req keys) = Request.URL req.
Proof.
  revert req. induction keys as [|key keys IH]; intros req; simpl; [done |].
  by rewrite IH, copyHeader_URL.
Qed.

Lemma copyHeaders_otherOrigin oldest keys req :
  otherOrigin (foldl (copyHeader oldest) req keys) oldest = otherOrigin req oldest.
Proof. unfold otherOrigin. by rewrite copyHeaders_URL. Qed.


(** The header map after the loop, key by key, whatever the order of the
    visit: a copied key holds the single first value of the original. *)
Lemma copyHeaders_lookup oldest keys req (k : string) :
  Request.Header (foldl (copyHeader oldest) req keys) !! k =
    if bool_decide (k ∈ CanonicalMIMEHeaderKey <$> filter (λ key, copied oldest req key) keys)
    then Some [firstValue (Request.Header oldest) k]
    else Request.Header req !! k.
Proof.
  induction keys as [|key keys IH] using rev_ind; [done |].
  rewrite foldl_snoc, filter_app, fmap_app, filter_cons, filter_nil.
  unfold copyHeader at 1. rewrite copyHeaders_otherOrigin.
  replace (String.eqb key "Authorization" && otherOrigin req oldest)
    with (negb (copied oldest req key)) by (unfold copied; apply negb_involutive).
  destruct (copied oldest req key); simpl.
  - unfold Header_Set.
    destruct (decide (CanonicalMIMEHeaderKey key = k)) as [<- | Hne].
    + rewrite lookup_insert_eq, bool_decide_eq_true_2 by set_solver.
      by unfold Header_Get, firstValue.
    + rewrite lookup_insert_ne, IH by done.
      apply (f_equal (λ b : bool, if b then _ else _)), bool_decide_ext.
      rewrite elem_of_app, list_elem_of_singleton.
      split; [by left | intros [? | ->]; [done | congruence]].
  - by rewrite app_nil_r.
Qed.

Lemma checkRedirect_allowed keys req oldest rest :
  (length (oldest :: rest) < 3)%nat →
  checkRedirect keys req (oldest :: rest) =
    Return {| redirectErr := None;
              redirectReq := foldl (copyHeader oldest) req keys;
              redirectTrace :=
                ["api: redirect " +:+ Request.Method oldest +:+ " "
                   +:+ SplitN2_head (URL_String (Request.URL oldest)) "?" +:+ " to "
                   +:+ SplitN2_head (URL_String (Request.URL req)) "?"] |}.
Proof.
  intros Hlen. unfold checkRedirect.
  destruct (Nat.leb_spec 3 (length (oldest :: rest))) as [Hge | _]; [lia |].
  by rewrite copyHeaders_URL.
Qed.

Section header_propagation.

(** A hop the policy is asked about: the keys of the original's header in
    the order of the visit, all of them in canonical form, as
    [Header.Set] and [Header.Add] store them. *)
Context (keys : list string) (req oldest : Request.t).
Hypothesis keys_range : rangeOrder (Request.Header oldest) keys.
Hypothesis keys_canonical : Forall (λ key, CanonicalMIMEHeaderKey key = key) keys.






End header_propagation.

(** C3. The policy returns the hop-limit error, leaving the new request
    as it was, exactly when the chain of prior requests [via] (the
    original request and the redirects followed since) already holds
    three.  A redirect chain being the requests of one operation, the
    original first, the hop asked about makes it [via ++ [req]]: along a
    chain of length at most three every call of the policy allows the hop
    (returns nil), and the hop that would make the chain four long is
    refused.  The client then makes no fourth call of the network:
    whatever the network answers it sends at most three requests, and if
    each of them is answered by a redirect it sends exactly three and the
    operation ends with the hop-limit error. *)
Theorem checkRedirect_hop_limit keys req via send order ireq (extra : nat) :
  (checkRedirect keys req via
   = Return {| redirectErr := Some hopLimit; redirectReq := req; redirectTrace := [] |}
   ↔ (3 ≤ length via)%nat) ∧
  ((∃ r, checkRedirect keys req via = Return r ∧ redirectErr r = None)
   ↔ via ≠ [] ∧ (length (via ++ [req]) ≤ 3)%nat) ∧
  (∃ sent out, follow send order (3 + extra) [] ireq = Some (sent, out) ∧
               (length sent ≤ 3)%nat ∧
               ((∀ req', req' ∈ sent → ∃ res next, send req' = Redirects res next) →
                length sent = 3%nat ∧ out.2 = Some hopLimit)).
Proof.
  split; [| split].
  - unfold checkRedirect.
    destruct (Nat.leb_spec 3 (length via)) as [Hge | Hlt]; [done |].
    destruct via as [|oldest rest]; (split; [done | simpl in *; lia]).
  - rewrite length_app. simpl. unfold checkRedirect.
    destruct (Nat.leb_spec 3 (length via)) as [Hge | Hlt].
    + split; [intros (r & [= <-] & Hr); done | lia].
    + destruct via as [|oldest rest]; simpl in *.
      * split; [intros (r & ? & _); done | intros [? _]; done].
      * split; [intros _; split; [done | lia] | intros _; eexists; split; done].
  - cbn [follow Nat.add app].
    destruct (send ireq) as [res1 | res1 req2 | e1] eqn:H1;
      [eexists _, _; split; [done |]; split; [simpl; lia |];
       intros Hall; destruct (Hall ireq) as (? & ? & ?); [set_solver | congruence] |
      | eexists _, _; split; [done |]; split; [simpl; lia |];
        intros Hall; destruct (Hall ireq) as (? & ? & ?); [set_solver | congruence]].
    rewrite checkRedirect_allowed by (simpl; lia). cbn [follow redirectErr redirectReq app].
    set (req2' := foldl (copyHeader ireq) req2 _).
    destruct (send req2') as [res2 | res2 req3 | e2] eqn:H2;
      [eexists _, _; split; [done |]; split; [simpl; lia |];
       intros Hall; destruct (Hall req2') as (? & ? & ?); [set_solver | congruence] |
      | eexists _, _; split; [done |]; split; [simpl; lia |];
        intros Hall; destruct (Hall req2') as (? & ? & ?); [set_solver | congruence]].
    rewrite checkRedirect_allowed by (simpl; lia). cbn [follow redirectErr redirectReq app].
    set (req3' := foldl (copyHeader ireq) req3 _).
    destruct (send req3') as [res3 | res3 req4 | e3] eqn:H3;
      [eexists _, _; split; [done |]; split; [simpl; lia |];
       intros Hall; destruct (Hall req3') as (? & ? & ?); [set_solver | congruence] |
      | eexists _, _; split; [done |]; split; [simpl; lia |];
        intros Hall; destruct (Hall req3') as (? & ? & ?); [set_solver | congruence]].
    replace (checkRedirect (order (Request.Header ireq)) req4 [ireq; req2'; req3'])
      with (Return {| redirectErr := Some hopLimit; redirectReq := req4;
                      redirectTrace := [] |}) by done.
    cbn [redirectErr]. eexists _, _. split; [done |]. split; [simpl; lia |]. done.
Qed.

(** ** Counting streams and the registry *)

Lemma int_wrap_range z : int_range (int_wrap z).
Proof.
  unfold int_range, int_wrap.
  pose proof (Z.mod_pos_bound (z + 2 ^ 63) (2 ^ 64) ltac:(lia)). lia.
Qed.

Lemma int_wrap_id z : int_range z → int_wrap z = z.
Proof.
  unfold int_range, int_wrap. intros Hz. rewrite Z.mod_small; lia.
Qed.

Lemma int_wrap_add_l a b : int_wrap (int_wrap a + b) = int_wrap (a + b).
Proof.
  unfold int_wrap.
  replace ((a + 2 ^ 63) mod 2 ^ 64 - 2 ^ 63 + b + 2 ^ 63)
    with ((a + 2 ^ 63) mod 2 ^ 64 + b) by lia.
  replace (a + b + 2 ^ 63) with ((a + 2 ^ 63) + b) by lia.
  by rewrite Zplus_mod_idemp_l.
Qed.

Lemma len_nonneg s : 0 ≤ len s.
Proof. unfold len. lia. Qed.

(** What a call of [Read] does, case by case on the error of the stream
    below. *)
Lemma Read_error Config now r c w msg :
  err r = Some (Err msg) →
  Read Config now r c w = (c, w, (len (data r), Some (Err msg))).
Proof. unfold Read. by intros ->. Qed.

Lemma Read_ok Config now r c w :
  err r = None →
  Read Config now r c w =
    (with_Count c (int_add (Count c) (len (data r))),
     traceChunk Config (with_Count c (int_add (Count c) (len (data r)))) (data r) w,
     (len (data r), None)).
Proof. unfold Read. by intros ->. Qed.

Lemma Read_EOF Config now r c w :
  err r = Some EOF →
  Read Config now r c w =
    let c' := with_Count c (int_add (Count c) (len (data r))) in
    let w' := traceChunk Config c' (data r) w in
    (c', (if isLoggingStats Config then finalizeTransfer c' now w' else w'),
     (len (data r), Some EOF)).
Proof. unfold Read. by intros ->. Qed.

Lemma traceChunk_httpTransfers Config c chunk w :
  httpTransfers (traceChunk Config c chunk w) = httpTransfers w.
Proof. unfold traceChunk. by repeat case_match. Qed.

Lemma traceChunk_httpTransferBuckets Config c chunk w :
  httpTransferBuckets (traceChunk Config c chunk w) = httpTransferBuckets w.
Proof. unfold traceChunk. by repeat case_match. Qed.

Lemma finalizeTransfer_httpTransferBuckets c now w :
  httpTransferBuckets (finalizeTransfer c now w) = httpTransferBuckets w.
Proof. unfold finalizeTransfer. by repeat case_match. Qed.

Lemma finalizeTransfer_no_response c now w :
  response c = None → finalizeTransfer c now w = w.
Proof. unfold finalizeTransfer. by intros ->. Qed.

(** Tracing leaves both maps alone, and finalization the buckets. *)
Create Rewrite HintDb registry.
#[local] Hint Rewrite traceChunk_httpTransfers traceChunk_httpTransferBuckets
  finalizeTransfer_httpTransferBuckets : registry.

(** The three cases of the error a stream can give. *)
Lemma error_cases (e : option error) :
  e = None ∨ e = Some EOF ∨ ∃ msg, e = Some (Err msg).
Proof. destruct e as [[|msg]|]; eauto. Qed.

Ltac read_cases r :=
  let H := fresh "Herr" in
  destruct (error_cases (err r)) as [H | [H | [? H]]];
  [rewrite (Read_ok _ _ _ _ _ H) | rewrite (Read_EOF _ _ _ _ _ H)
  | rewrite (Read_error _ _ _ _ _ _ H)]; simpl.

Lemma Read_response Config now r c w :
  response (Read Config now r c w).1.1 = response c.
Proof. by read_cases r. Qed.


(** No call of [Read] writes to the buckets. *)
Lemma Read_httpTransferBuckets Config now r c w :
  httpTransferBuckets (Read Config now r c w).1.2 = httpTransferBuckets w.
Proof.
  read_cases r; [| destruct (isLoggingStats Config) |]; by autorewrite with registry.
Qed.

(** A call of [Read] writes to the records only at the end of the stream
    of a response, with statistics logged. *)
Lemma Read_httpTransfers_unchanged Config now r c w :
  isLoggingStats Config = false ∨ response c = None ∨ err r ≠ Some EOF →
  httpTransfers (Read Config now r c w).1.2 = httpTransfers w.
Proof.
  intros Hwhy. read_cases r; [| | done].
  - by autorewrite with registry.
  - destruct Hwhy as [-> | [Hnone | ?]]; [| | done].
    + by autorewrite with registry.
    + rewrite finalizeTransfer_no_response by done.
      destruct (isLoggingStats Config); by autorewrite with registry.
Qed.

Lemma Reads_cons Config now r calls c w :
  Reads Config ((now, r) :: calls) c w =
    let s := Read Config now r c w in
    let s' := Reads Config calls s.1.1 s.1.2 in
    (s'.1.1, s'.1.2, s.2 :: s'.2).
Proof.
  cbn [Reads]. destruct (Read Config now r c w) as [[c1 w1] out]. cbn.
  by destruct (Reads Config calls c1 w1) as [[c2 w2] outs].
Qed.

Lemma Reads_response Config calls c w :
  response (Reads Config calls c w).1.1 = response c.
Proof.
  revert c w. induction calls as [|[now r] calls IH]; intros c w; [done |].
  rewrite Reads_cons. simpl. by rewrite IH, Read_response.
Qed.

Lemma Reads_httpTransferBuckets Config calls c w :
  httpTransferBuckets (Reads Config calls c w).1.2 = httpTransferBuckets w.
Proof.
  revert c w. induction calls as [|[now r] calls IH]; intros c w; [done |].
  rewrite Reads_cons. simpl. by rewrite IH, Read_httpTransferBuckets.
Qed.

Lemma Reads_httpTransfers_unchanged Config calls c w :
  isLoggingStats Config = false ∨ response c = None →
  httpTransfers (Reads Config calls c w).1.2 = httpTransfers w.
Proof.
  revert c w. induction calls as [|[now r] calls IH]; intros c w Hwhy; [done |].
  rewrite Reads_cons. simpl. rewrite IH.
  - apply Read_httpTransfers_unchanged. tauto.
  - rewrite Read_response. tauto.
Qed.

Lemma Reads_app Config calls1 calls2 c w :
  Reads Config (calls1 ++ calls2) c w =
    let s1 := Reads Config calls1 c w in
    let s2 := Reads Config calls2 s1.1.1 s1.1.2 in
    (s2.1.1, s2.1.2, s1.2 ++ s2.2).
Proof.
  revert c w. induction calls1 as [|[now r] calls1 IH]; intros c w.
  - simpl. by destruct (Reads Config calls2 c w) as [[c2 w2] outs].
  - rewrite <- app_comm_cons, !Reads_cons. cbv zeta. by rewrite IH.
Qed.

(** Every call gives back the count and the error of the stream below. *)
Lemma Read_result Config now r c w :
  (Read Config now r c w).2 = (len (data r), err r).
Proof. read_cases r; by rewrite Herr. Qed.

Lemma Reads_results Config calls c w :
  (Reads Config calls c w).2 = (λ call, (len (data call.2), err call.2)) <$> calls.
Proof.
  revert c w. induction calls as [|[now r] calls IH]; intros c w; [done |].
  rewrite Reads_cons. simpl. by rewrite IH, Read_result.
Qed.


Lemma countedBytes_app outs1 outs2 :
  countedBytes (outs1 ++ outs2) = countedBytes outs1 + countedBytes outs2.
Proof. induction outs1 as [|out outs1 IH]; simpl; [done | rewrite IH; lia]. Qed.

Lemma countedBytes_no_failure outs :
  Forall (λ out, out.2 = None ∨ out.2 = Some EOF) outs →
  countedBytes outs = returnedBytes outs.
Proof.
  induction 1 as [|[n e] outs Hout _ IH]; simpl; [done |].
  rewrite IH. unfold counted. simpl in *. by destruct Hout as [-> | ->].
Qed.

Lemma Read_Count Config now r c w :
  Count (Read Config now r c w).1.1
  = match err r with
    | Some (Err _) => Count c
    | _ => int_add (Count c) (len (data r))
    end.
Proof. read_cases r; by rewrite Herr. Qed.

Lemma Reads_Count Config calls c w :
  int_range (Count c) →
  Count (Reads Config calls c w).1.1
  = int_wrap (Count c + countedBytes (Reads Config calls c w).2) ∧
  int_range (Count (Reads Config calls c w).1.1).
Proof.
  revert c w. induction calls as [|[now r] calls IH]; intros c w Hc.
  - simpl. by rewrite Z.add_0_r, int_wrap_id.
  - rewrite Reads_cons. cbv zeta. simpl.
    assert (Hc1 : int_range (Count (Read Config now r c w).1.1)).
    { rewrite Read_Count. repeat case_match; try done; apply int_wrap_range. }
    destruct (IH _ (Read Config now r c w).1.2 Hc1) as [Hcount Hrange].
    split; [| done]. rewrite Hcount.
    rewrite Read_Count, Read_result. unfold counted, int_add. simpl.
    generalize (countedBytes (Reads Config calls (Read Config now r c w).1.1
                                (Read Config now r c w).1.2).2). intros rest.
    destruct (error_cases (err r)) as [-> | [-> | [msg ->]]].
    + rewrite int_wrap_add_l. f_equal. lia.
    + rewrite int_wrap_add_l. f_equal. lia.
    + f_equal.
Qed.

(** A record, once in the map, stays: [Read] only ever writes to the
    record of its own response. *)
Lemma Read_record_kept Config now r c w (a : positive) :
  is_Some (httpTransfers w !! a) →
  is_Some (httpTransfers (Read Config now r c w).1.2 !! a).
Proof.
  intros Hsome. read_cases r; [| | done].
  - by rewrite traceChunk_httpTransfers.
  - destruct (isLoggingStats Config); [| by rewrite traceChunk_httpTransfers].
    unfold finalizeTransfer. simpl.
    destruct (response c) as [res|]; [| by rewrite traceChunk_httpTransfers].
    rewrite traceChunk_httpTransfers.
    destruct (httpTransfers w !! Response.addr res) as [t|] eqn:Ht;
      [| by rewrite traceChunk_httpTransfers].
    simpl. rewrite lookup_insert. by case_decide.
Qed.

Lemma Reads_record_kept Config calls c w (a : positive) :
  is_Some (httpTransfers w !! a) →
  is_Some (httpTransfers (Reads Config calls c w).1.2 !! a).
Proof.
  revert c w. induction calls as [|[now r] calls IH]; intros c w Hsome; [done |].
  rewrite Reads_cons. simpl. by apply IH, Read_record_kept.
Qed.

(** The write at the end of a response: the record takes the count of the
    stream and the time of the call; its other fields stay. *)
Lemma Read_EOF_finalizes Config now r c w res t :
  isLoggingStats Config = true →
  err r = Some EOF →
  response c = Some res →
  httpTransfers w !! Response.addr res = Some t →
  httpTransfers (Read Config now r c w).1.2
  = <[Response.addr res := finalize t (int_add (Count c) (len (data r))) now]>
      (httpTransfers w).
Proof.
  intros Hstats Herr Hres Ht. rewrite (Read_EOF _ _ _ _ _ Herr). simpl.
  rewrite Hstats. unfold finalizeTransfer. simpl. rewrite Hres.
  rewrite traceChunk_httpTransfers, Ht. simpl.
  by rewrite ?traceChunk_httpTransfers.
Qed.

(** C1 (as the code has it). [Read] holds no mark of a finalization done:
    with statistics logged, every call on the stream of a response that
    returns end-of-stream writes the record again.  After a first such
    call the record holds the count of the stream and the time of that
    call; after a later one it holds the count of the stream, which is
    the same when the later call returns no byte, and the time of the
    later call in place of the first.  The call returns what the stream
    below returned and does not panic. *)
Theorem Read_EOF_again_finalizes_again Config now1 now2 r1 r2 c w res t :
  isLoggingStats Config = true →
  response c = Some res →
  httpTransfers w !! Response.addr res = Some t →
  err r1 = Some EOF →
  err r2 = Some EOF →
  let s1 := Read Config now1 r1 c w in
  let s2 := Read Config now2 r2 s1.1.1 s1.1.2 in
  httpTransfers s1.1.2 !! Response.addr res = Some (finalize t (Count s1.1.1) now1) ∧
  httpTransfers s2.1.2 !! Response.addr res = Some (finalize t (Count s2.1.1) now2) ∧
  Count s2.1.1 = int_add (Count s1.1.1) (len (data r2)) ∧
  (data r2 = "" → Count s2.1.1 = Count s1.1.1) ∧
  s2.2 = (len (data r2), Some EOF).
Proof.
  intros Hstats Hres Ht Herr1 Herr2. cbv zeta.
  pose proof (Read_EOF_finalizes Config now1 r1 c w res t Hstats Herr1 Hres Ht) as Hw1.
  pose proof (Read_Count Config now1 r1 c w) as Hc1. rewrite Herr1 in Hc1.
  pose proof (Read_response Config now1 r1 c w) as Hres1. rewrite Hres in Hres1.
  destruct (Read Config now1 r1 c w) as [[c1 w1] out1]. simpl in *.
  assert (H1 : httpTransfers w1 !! Response.addr res
               = Some (finalize t (Count c1) now1)).
  { by rewrite Hw1, lookup_insert_eq, Hc1. }
  pose proof (Read_EOF_finalizes Config now2 r2 c1 w1 res _ Hstats Herr2 Hres1 H1) as Hw2.
  pose proof (Read_Count Config now2 r2 c1 w1) as Hc2. rewrite Herr2 in Hc2.
  pose proof (Read_result Config now2 r2 c1 w1) as Hout2. rewrite Herr2 in Hout2.
  destruct (Read Config now2 r2 c1 w1) as [[c2 w2] out2]. simpl in *.
  split; [done |]. split; [by rewrite Hw2, lookup_insert_eq, Hc2 |].
  split; [done |]. split; [| done].
  intros Hempty. rewrite Hc2, Hempty. unfold int_add, len. simpl.
  rewrite Z.add_0_r. apply int_wrap_id. rewrite Hc1. apply int_wrap_range.
Qed.

(** C5 (as the code has it). With statistics logged and the record of the
    response in the map, once the stream of the response has been read up
    to a call that returns end-of-stream, the body size of the record is
    the sum, in Go's [int], of the byte counts returned by the calls that
    returned no error or end-of-stream; bytes returned beside another
    error are not counted.  When no call returned such an error this is
    the sum of the byte counts of all the calls. *)
Theorem finalized_BodySize_sums_counted_reads Config calls now r res t w :
  isLoggingStats Config = true →
  httpTransfers w !! Response.addr res = Some t →
  err r = Some EOF →
  let s := Reads Config (calls ++ [(now, r)]) (countingResponse res) w in
  (∃ t', httpTransfers s.1.2 !! Response.addr res = Some t' ∧
         BodySize (responseStats t') = int_wrap (countedBytes s.2) ∧
         Stop (responseStats t') = now) ∧
  s.2 = (λ call, (len (data call.2), err call.2)) <$> (calls ++ [(now, r)]) ∧
  (Forall (λ out, out.2 = None ∨ out.2 = Some EOF) s.2 →
   countedBytes s.2 = returnedBytes s.2).
Proof.
  intros Hstats Ht Herr s. split; [| split].
  - unfold s. rewrite Reads_app. cbv zeta. simpl.
    set (s1 := Reads Config calls (countingResponse res) w).
    destruct (Reads_record_kept Config calls (countingResponse res) w (Response.addr res))
      as [t1 Ht1]; [by eexists |]. fold s1 in Ht1.
    assert (Hres : response s1.1.1 = Some res) by (unfold s1; by rewrite Reads_response).
    destruct (Read Config now r s1.1.1 s1.1.2) as [[c2 w2] out] eqn:Hread. simpl.
    pose proof (Read_EOF_finalizes Config now r _ _ res t1 Hstats Herr Hres Ht1) as Hfin.
    pose proof (Read_result Config now r s1.1.1 s1.1.2) as Hout.
    rewrite Hread in Hfin, Hout. simpl in Hfin, Hout. subst out.
    eexists. split; [by rewrite Hfin, lookup_insert_eq |]. simpl. split; [| done].
    destruct (Reads_Count Config calls (countingResponse res) w) as [Hcount _];
      [simpl; unfold int_range; lia |]. fold s1 in Hcount. simpl in Hcount.
    rewrite countedBytes_app, Hcount. unfold int_add. simpl.
    unfold counted. simpl. rewrite Herr.
    rewrite int_wrap_add_l. f_equal. lia.
  - apply Reads_results.
  - apply countedBytes_no_failure.
Qed.

(** C8. A call of [Read] for which the stream below returns an error other
    than end-of-stream returns that error, with the count beside it, and
    changes nothing: neither the stream's count nor the world.  The
    record of the response is not written, so a stop time that was zero
    is zero after the call. *)
Theorem Read_error_does_not_finalize Config now r c w msg :
  err r = Some (Err msg) →
  Read Config now r c w = (c, w, (len (data r), Some (Err msg))) ∧
  ∀ res t, response c = Some res →
           httpTransfers w !! Response.addr res = Some t →
           Stop (responseStats t) = zeroTime →
           Stop ∘ responseStats <$> httpTransfers (Read Config now r c w).1.2 !! Response.addr res
           = Some zeroTime.
Proof.
  intros Herr. rewrite (Read_error _ _ _ _ _ _ Herr). split; [done |].
  intros res t _ Ht Hstop. simpl. by rewrite Ht, <- Hstop.
Qed.

Lemma traceHttpRequest_registry Config lib req w :
  httpTransfers (traceHttpRequest Config lib req w) = httpTransfers w ∧
  httpTransferBuckets (traceHttpRequest Config lib req w) = httpTransferBuckets w.
Proof. unfold traceHttpRequest. by repeat case_match. Qed.

Lemma traceHttpResponse_registry Config lib res w :
  httpTransfers (traceHttpResponse Config lib res w) = httpTransfers w ∧
  httpTransferBuckets (traceHttpResponse Config lib res w) = httpTransferBuckets w.
Proof. unfold traceHttpResponse. by repeat case_match. Qed.


Lemma afterTransport_registry Config lib start req w :
  httpTransfers (afterTransport Config lib start req w).2 = httpTransfers w ∧
  httpTransferBuckets (afterTransport Config lib start req w).2 = httpTransferBuckets w.
Proof.
  unfold afterTransport.
  destruct (traceHttpRequest_registry Config lib req w) as [Ht Hb].
  destruct (Request.Body req) as [reads|]; simpl; [| done].
  rewrite Reads_httpTransfers_unchanged, Reads_httpTransferBuckets by (by right).
  done.
Qed.

Lemma Do_unfold Config lib start answer req w :
  Do Config lib start answer req w =
    let s := afterTransport Config lib start req w in
    match answer with
    | (res, Some e) => Return (s.2, {| doRes := res; doErr := Some e; doBody := None |})
    | (None, None) => Panic nilDereference
    | (Some res, None) =>
        let w := traceHttpResponse Config lib (Some res) s.2 in
        let w :=
          if isLoggingStats Config then
            with_httpTransfers w
              (<[Response.addr res :=
                   {| requestStats :=
                        {| HeaderSize := match DumpRequest lib req with
                                         | Some dump => len dump | None => 0 end;
                           BodySize := Count s.1;
                           Start := zeroTime; Stop := zeroTime |};
                      responseStats :=
                        {| HeaderSize := match DumpResponse lib res with
                                         | Some dump => len dump | None => 0 end;
                           BodySize := 0;
                           Start := start; Stop := zeroTime |} |}]>
                 (httpTransfers w))
          else w in
        Return (w, {| doRes := Some res; doErr := None;
                      doBody := Some (countingResponse res) |})
    end.
Proof.
  unfold Do, afterTransport.
  destruct (Request.Body req) as [reads|]; [| done].
  by destruct (Reads Config (map (pair start) reads) (countingRequest req)
                 (traceHttpRequest Config lib req w)) as [[c1 w1] outs].
Qed.

(** C7. When the transport fails, [Do] returns what the transport
    returned, the error as it is, and the registry is as before: no record
    is made, and no bucket changes. *)
Theorem Do_transport_error Config lib start res e req w :
  ∃ w', Do Config lib start (res, Some e) req w
        = Return (w', {| doRes := res; doErr := Some e; doBody := None |}) ∧
        httpTransfers w' = httpTransfers w ∧
        httpTransferBuckets w' = httpTransferBuckets w.
Proof.
  rewrite Do_unfold. cbv zeta.
  destruct res; (eexists; split; [reflexivity | apply afterTransport_registry]).
Qed.

(** C9. With [isLoggingStats] off nothing writes to the registry: [Do]
    leaves both maps as they were, [LogTransfer] leaves the world as it
    was, and [Read], at end-of-stream as on any other call, leaves both
    maps as they were. *)
Theorem no_registry_write_without_isLoggingStats Config :
  isLoggingStats Config = false →
  (∀ lib start answer req w w' r,
     Do Config lib start answer req w = Return (w', r) →
     httpTransfers w' = httpTransfers w ∧
     httpTransferBuckets w' = httpTransferBuckets w) ∧
  (∀ key res w, LogTransfer Config key res w = w) ∧
  (∀ now r c w,
     httpTransfers (Read Config now r c w).1.2 = httpTransfers w ∧
     httpTransferBuckets (Read Config now r c w).1.2 = httpTransferBuckets w).
Proof.
  intros Hoff. split; [| split].
  - intros lib start [res e] req w w' r. rewrite Do_unfold. cbv zeta.
    rewrite Hoff.
    destruct (afterTransport_registry Config lib start req w) as [Ht Hb].
    destruct res as [res|], e as [e|]; try (by intros [= <- _]).
    intros [= <- _].
    destruct (traceHttpResponse_registry Config lib (Some res)
                (afterTransport Config lib start req w).2) as [Ht' Hb'].
    split; [exact (eq_trans Ht' Ht) | exact (eq_trans Hb' Hb)].
  - intros key res w. unfold LogTransfer. by rewrite Hoff.
  - intros now r c w. split.
    + apply Read_httpTransfers_unchanged. by left.
    + apply Read_httpTransferBuckets.
Qed.

(** ** The report *)


Section report.

Context (transfers : gmap positive httpTransfer).
Context (buckets : gmap string (list (option Response.t))).

Lemma transferLine_cases key response :
  (hasRecord transfers response = true ∧
   ∃ line, transferLine transfers key response = Return line ∧
           reportLine transfers (key, response) line) ∨
  (hasRecord transfers response = false ∧
   transferLine transfers key response = Panic nilDereference).
Proof.
  unfold transferLine, hasRecord, reportLine.
  destruct response as [res|]; [| by right].
  destruct (transfers !! Response.addr res) as [stats|] eqn:Hstats.
  - left. split; [by apply bool_decide_eq_true_2 |]. eexists. split; [done |].
    by exists res, stats.
  - right. split; [| done]. apply bool_decide_eq_false_2. by intros [? ?].
Qed.

Lemma rangeResponses_cases key responses :
  (Forall (λ response, hasRecord transfers response = true) responses ∧
   ∃ lines, rangeResponses transfers key responses = Return lines ∧
            Forall2 (reportLine transfers) (pair key <$> responses) lines) ∨
  (Exists (λ response, hasRecord transfers response = false) responses ∧
   rangeResponses transfers key responses = Panic nilDereference).
Proof.
  induction responses as [|response responses IH]; simpl.
  - left. split; [done |]. exists []. by split.
  - destruct (transferLine_cases key response)
      as [[Hrec (line & -> & Hline)] | [Hrec ->]]; [| right; split; [by left | done]].
    destruct IH as [[Hall (lines & -> & Hlines)] | [Hex ->]].
    + left. split; [by constructor |]. exists (line :: lines). split; [done |].
      by constructor.
    + right. split; [by right | done].
Qed.

Lemma rangeBuckets_cases keys :
  (Forall (λ key, Forall (λ response, hasRecord transfers response = true)
                    (default [] (buckets !! key))) keys ∧
   ∃ lines, rangeBuckets transfers buckets keys = Return lines ∧
            Forall2 (reportLine transfers) (bucketed buckets keys) lines) ∨
  (Exists (λ key, Exists (λ response, hasRecord transfers response = false)
                    (default [] (buckets !! key))) keys ∧
   rangeBuckets transfers buckets keys = Panic nilDereference).
Proof.
  induction keys as [|key keys IH]; simpl.
  - left. split; [done |]. exists []. by split.
  - destruct (rangeResponses_cases key (default [] (buckets !! key)))
      as [[Hrec (lines & -> & Hlines)] | [Hrec ->]]; [| right; split; [by left | done]].
    destruct IH as [[Hall (more & -> & Hmore)] | [Hex ->]].
    + left. split; [by constructor |]. exists (lines ++ more). split; [done |].
      by apply Forall2_app.
    + right. split; [by right | done].
Qed.

Lemma bucketed_length_perm keys1 keys2 :
  keys1 ≡ₚ keys2 → length (bucketed buckets keys1) = length (bucketed buckets keys2).
Proof.
  unfold bucketed. induction 1; simpl; rewrite ?length_app; lia.
Qed.

(** Whatever the order of the visit, it meets every bucketed transfer
    exactly once. *)
Lemma bucketed_length keys :
  rangeOrder buckets keys → length (bucketed buckets keys) = bucketedCount buckets.
Proof.
  unfold rangeOrder, bucketedCount. intros Hkeys.
  rewrite (bucketed_length_perm _ _ Hkeys). unfold bucketed.
  assert (Hin : ∀ kv, kv ∈ map_to_list buckets → buckets !! kv.1 = Some kv.2).
  { intros [k v]. apply elem_of_map_to_list. }
  revert Hin. generalize (map_to_list buckets). intros l.
  induction l as [|[k v] l IH]; intros Hin; [done |].
  simpl. rewrite length_app, length_fmap.
  pose proof (Hin (k, v) ltac:(left)) as Hk. simpl in Hk. rewrite Hk. simpl. f_equal.
  apply IH. intros kv Hkv. apply Hin. by right.
Qed.

End report.

Lemma rangeOrder_Forall_buckets {A} (P : A → Prop) (buckets : gmap string (list A)) keys :
  rangeOrder buckets keys →
  Forall (λ key, Forall P (default [] (buckets !! key))) keys ↔
  ∀ key entries entry, buckets !! key = Some entries → entry ∈ entries → P entry.
Proof.
  intros Hkeys. rewrite Forall_forall. split.
  - intros Hall key entries entry Hkey Hentry.
    assert (Hin : key ∈ keys) by (apply (rangeOrder_elem_of _ _ _ Hkeys); by eexists).
    specialize (Hall key Hin). rewrite Hkey in Hall. simpl in Hall.
    rewrite Forall_forall in Hall. by apply Hall.
  - intros Hall key Hin. apply Forall_forall. intros entry Hentry.
    apply (rangeOrder_elem_of _ _ _ Hkeys) in Hin as [entries Hkey].
    rewrite Hkey in Hentry. by apply (Hall key entries).
Qed.

Lemma rangeOrder_Exists_buckets {A} (P : A → Prop) (buckets : gmap string (list A)) keys :
  rangeOrder buckets keys →
  Exists (λ key, Exists P (default [] (buckets !! key))) keys ↔
  ∃ key entries entry, buckets !! key = Some entries ∧ entry ∈ entries ∧ P entry.
Proof.
  intros Hkeys. rewrite Exists_exists. split.
  - intros (key & Hin & Hex). apply Exists_exists in Hex as (entry & Hentry & HP).
    apply (rangeOrder_elem_of _ _ _ Hkeys) in Hin as [entries Hkey].
    rewrite Hkey in Hentry. by exists key, entries, entry.
  - intros (key & entries & entry & Hkey & Hentry & HP). exists key. split.
    + apply (rangeOrder_elem_of _ _ _ Hkeys). by eexists.
    + rewrite Hkey. apply Exists_exists. by exists entry.
Qed.

Lemma LogHttpStats_unfold Config env keys w name :
  isLoggingStats Config = true →
  statsLogFile env = inl name →
  LogHttpStats Config env keys w =
    match rangeBuckets (httpTransfers w) (httpTransferBuckets w) keys with
    | Return lines =>
        Return (Fprint_stderr w ["HTTP Stats logged to file " +:+ name +:+ nl],
                Some (summaryLine env :: lines))
    | Panic msg => Panic msg
    end.
Proof. unfold LogHttpStats. by intros -> ->. Qed.

Lemma LogTransfer_appends Config key res w :
  isLoggingStats Config = true →
  httpTransferBuckets (LogTransfer Config key res w)
  = <[key := default [] (httpTransferBuckets w !! key) ++ [res]]> (httpTransferBuckets w) ∧
  httpTransfers (LogTransfer Config key res w) = httpTransfers w.
Proof. unfold LogTransfer. by intros ->. Qed.

(** C6 (as the code has it). The buckets are a Go map, which keeps no
    order of insertion: the report visits them in an order [range] is
    free to choose, each bucket once.  Within a bucket the responses come
    in the order of the slice, and [LogTransfer] appends to the slice, so
    in the order of their logging.  When every bucketed response has a
    record the file holds, after the summary line, exactly one line per
    bucketed transfer, bucket by bucket in the order of the visit; a
    record that no end-of-stream ever completed gives its line like any
    other, with the values it holds. *)
Theorem LogHttpStats_one_line_per_transfer Config env keys w name :
  isLoggingStats Config = true →
  statsLogFile env = inl name →
  rangeOrder (httpTransferBuckets w) keys →
  (∀ key responses response,
     httpTransferBuckets w !! key = Some responses →
     response ∈ responses →
     hasRecord (httpTransfers w) response = true) →
  (∃ lines,
     LogHttpStats Config env keys w
     = Return (Fprint_stderr w ["HTTP Stats logged to file " +:+ name +:+ nl],
               Some (summaryLine env :: lines)) ∧
     Forall2 (reportLine (httpTransfers w)) (bucketed (httpTransferBuckets w) keys) lines ∧
     length lines = bucketedCount (httpTransferBuckets w)) ∧
  (∀ key res,
     httpTransferBuckets (LogTransfer Config key res w) !! key
     = Some (default [] (httpTransferBuckets w !! key) ++ [res])).
Proof.
  intros Hstats Hfile Hkeys Hall. split.
  - rewrite (LogHttpStats_unfold _ _ _ _ _ Hstats Hfile).
    destruct (rangeBuckets_cases (httpTransfers w) (httpTransferBuckets w) keys)
      as [[_ (lines & -> & Hlines)] | [Hex _]].
    + exists lines. split; [done |]. split; [done |].
      rewrite <- (Forall2_length _ _ _ Hlines). by apply bucketed_length.
    + apply (rangeOrder_Exists_buckets _ _ _ Hkeys) in Hex
        as (key & responses & response & Hkey & Hin & Hno).
      rewrite (Hall _ _ _ Hkey Hin) in Hno. done.
  - intros key res. destruct (LogTransfer_appends Config key res w Hstats) as [-> _].
    apply lookup_insert_eq.
Qed.

(** C10. The report looks up the record of each bucketed response and
    reads through it without a test.  It runs to its end exactly when
    every bucketed response has a record, and panics on a nil pointer
    exactly when some bucket holds a response without one. *)
Theorem LogHttpStats_nil_dereference Config env keys w name :
  isLoggingStats Config = true →
  statsLogFile env = inl name →
  rangeOrder (httpTransferBuckets w) keys →
  ((∃ out, LogHttpStats Config env keys w = Return out) ↔
   (∀ key responses response,
      httpTransferBuckets w !! key = Some responses →
      response ∈ responses →
      hasRecord (httpTransfers w) response = true)) ∧
  (LogHttpStats Config env keys w = Panic nilDereference ↔
   (∃ key responses response,
      httpTransferBuckets w !! key = Some responses ∧
      response ∈ responses ∧
      hasRecord (httpTransfers w) response = false)).
Proof.
  intros Hstats Hfile Hkeys.
  rewrite (LogHttpStats_unfold _ _ _ _ _ Hstats Hfile).
  rewrite <- (rangeOrder_Forall_buckets _ _ _ Hkeys).
  rewrite <- (rangeOrder_Exists_buckets _ _ _ Hkeys).
  destruct (rangeBuckets_cases (httpTransfers w) (httpTransferBuckets w) keys)
    as [[Hall (lines & -> & _)] | [Hex ->]].
  - split; split; try done.
    + intros _. by eexists.
    + intros Hex. exfalso. apply Exists_exists in Hex as (key & Hin & Hex).
      apply Exists_exists in Hex as (response & Hr & Hno).
      rewrite Forall_forall in Hall. specialize (Hall key Hin).
      rewrite Forall_forall in Hall. by rewrite (Hall response Hr) in Hno.
  - split; split; try done.
    + intros [out ?]. done.
    + intros Hall. exfalso. apply Exists_exists in Hex as (key & Hin & Hex).
      apply Exists_exists in Hex as (response & Hr & Hno).
      rewrite Forall_forall in Hall. specialize (Hall key Hin).
      rewrite Forall_forall in Hall. by rewrite (Hall response Hr) in Hno.
Qed.

(** ** The properties on the sample runs *)

Lemma traceHttpDump_redaction_sample :
  Scan requestDump !! 2%nat = Some ("Authorization" +:+ ": " +:+ "Basic abcd") ∧
  traceHttpDump tracing ">" requestDump !! 2%nat
  = Some ("> Authorization: Basic * * * * *" +:+ nl) ∧
  traceHttpDump debugging ">" requestDump !! 2%nat
  = Some ("> Authorization: Basic abcd" +:+ nl).
Proof.
  split; [reflexivity |]. split.
  - apply (traceHttpDump_redacts_basic_authorization
             tracing ">" requestDump 2 "Authorization" "Basic abcd"); reflexivity.
  - apply (traceHttpDump_redacts_basic_authorization
             debugging ">" requestDump 2 "Authorization" "Basic abcd"); reflexivity.
Defined.

Lemma Read_EOF_again_sample :
  httpTransfers opened !! Response.addr download = Some openedRecord ∧
  httpTransfers firstEOF.1.2 !! Response.addr download
  = Some (finalize openedRecord 0 (start0 + 10)) ∧
  httpTransfers secondEOF.1.2 !! Response.addr download
  = Some (finalize openedRecord 0 (start0 + 20)) ∧
  secondEOF.2 = (0, Some EOF).
Proof.
  split; [reflexivity |].
  destruct (Read_EOF_again_finalizes_again statsOn (start0 + 10) (start0 + 20)
              endOfStream endOfStream (countingResponse download) opened
              download openedRecord eq_refl eq_refl eq_refl eq_refl eq_refl)
    as (H1 & H2 & _ & _ & H3).
  split; [exact H1 |]. split; [exact H2 | exact H3].
Defined.

(** Against C1 as stated: a second call that returns end-of-stream again
    replaces the stop time the first one wrote. *)
Lemma second_EOF_moves_Stop :
  firstEOF.2 = (0, Some EOF) ∧
  Stop ∘ responseStats <$> httpTransfers firstEOF.1.2 !! Response.addr download
  = Some 63581241600000000010 ∧
  secondEOF.2 = (0, Some EOF) ∧
  Stop ∘ responseStats <$> httpTransfers secondEOF.1.2 !! Response.addr download
  = Some 63581241600000000020.
Proof. vm_compute. repeat split; reflexivity. Qed.



Lemma finalized_BodySize_sample :
  httpTransfers opened !! Response.addr download = Some openedRecord ∧
  ∃ t', httpTransfers (Reads statsOn [(start0 + 10, chunk); (start0 + 20, endOfStream)]
                         (countingResponse download) opened).1.2
          !! Response.addr download = Some t' ∧
        BodySize (responseStats t') = 5 ∧
        Stop (responseStats t') = start0 + 20.
Proof.
  split; [reflexivity |].
  destruct (finalized_BodySize_sums_counted_reads statsOn [(start0 + 10, chunk)]
              (start0 + 20) endOfStream download openedRecord opened
              eq_refl eq_refl eq_refl)
    as ((t' & Ht' & Hsize & Hstop) & _ & _).
  exists t'. split; [exact Ht' |]. split; [exact Hsize | exact Hstop].
Defined.

(** Against C5 as stated: the two calls returned five bytes and none, and
    the body size written at the end of the stream is zero. *)
Lemma BodySize_misses_bytes_returned_with_error :
  readsWithTimeout.2 = [(5, Some (Err "i/o timeout")); (0, Some EOF)] ∧
  returnedBytes readsWithTimeout.2 = 5 ∧
  BodySize ∘ responseStats <$> httpTransfers readsWithTimeout.1.2 !! Response.addr download
  = Some 0.
Proof. vm_compute. repeat split; reflexivity. Qed.

Lemma Read_error_sample :
  Read statsOn (start0 + 10) timedOut (countingResponse download) opened
  = (countingResponse download, opened, (5, Some (Err "i/o timeout"))) ∧
  Stop ∘ responseStats <$>
    httpTransfers (Read statsOn (start0 + 10) timedOut (countingResponse download) opened).1.2
      !! Response.addr download
  = Some zeroTime.
Proof.
  destruct (Read_error_does_not_finalize statsOn (start0 + 10) timedOut
              (countingResponse download) opened "i/o timeout" eq_refl) as [H1 H2].
  split; [exact H1 |]. apply (H2 download openedRecord); reflexivity.
Defined.

Lemma no_registry_write_sample :
  LogTransfer statsOff "download" (Some download) opened = opened ∧
  httpTransfers (Read statsOff (start0 + 10) endOfStream (countingResponse download) opened).1.2
  = httpTransfers opened ∧
  ∃ w', Do statsOff lib start0 (Some upload, None) original opened
        = Return (w', {| doRes := Some upload; doErr := None;
                         doBody := Some (countingResponse upload) |}) ∧
        httpTransfers w' = httpTransfers opened.
Proof.
  destruct (no_registry_write_without_isLoggingStats statsOff eq_refl)
    as (HDo & HLog & HRead).
  split; [apply HLog |]. split; [apply HRead |].
  eexists. split; [reflexivity |].
  eapply (HDo lib start0 (Some upload, None) original opened). reflexivity.
Defined.

Lemma twoTransfers_recorded key responses response :
  httpTransferBuckets twoTransfers !! key = Some responses →
  response ∈ responses →
  hasRecord (httpTransfers twoTransfers) response = true.
Proof.
  assert (Hb : httpTransferBuckets twoTransfers
               = {[ "download" := [Some download]; "upload" := [Some upload] ]})
    by (vm_compute; reflexivity).
  rewrite Hb. intros Hkey Hin.
  apply lookup_insert_Some in Hkey as [[<- <-] | [Hne Hkey]].
  - apply list_elem_of_singleton in Hin as ->. reflexivity.
  - apply lookup_singleton_Some in Hkey as [<- <-].
    apply list_elem_of_singleton in Hin as ->. reflexivity.
Qed.

Lemma LogHttpStats_sample :
  rangeOrder (httpTransferBuckets twoTransfers) ["download"; "upload"] ∧
  Stop ∘ responseStats <$> httpTransfers twoTransfers !! Response.addr upload
  = Some zeroTime ∧
  ∃ lines,
    LogHttpStats statsOn reportEnv ["download"; "upload"] twoTransfers
    = Return (Fprint_stderr twoTransfers
                ["HTTP Stats logged to file " +:+ "http-1445000000.log" +:+ nl],
              Some (summaryLine reportEnv :: lines)) ∧
    length lines = 2%nat.
Proof.
  assert (Hkeys : rangeOrder (httpTransferBuckets twoTransfers) ["download"; "upload"]).
  { vm_compute. apply perm_swap. }
  split; [exact Hkeys |]. split; [reflexivity |].
  destruct (LogHttpStats_one_line_per_transfer statsOn reportEnv ["download"; "upload"]
              twoTransfers "http-1445000000.log" eq_refl eq_refl Hkeys
              twoTransfers_recorded)
    as ((lines & Hrun & _ & Hlen) & _).
  exists lines. split; [exact Hrun | exact Hlen].
Defined.

(** Against C6 as stated: [download] was logged before [upload], logging
    them the other way round gives the very same maps, and a visit of the
    buckets that [range] may make writes the line of [upload] first. *)
Lemma LogHttpStats_not_in_insertion_order :
  twoTransfers
  = LogTransfer statsOn "upload" (Some upload)
      (LogTransfer statsOn "download" (Some download)
         (Reads statsOn [(start0 + 10, chunk); (start0 + 20, endOfStream)]
            (countingResponse download)
            (worldAfterDo (start0 + 5) upload (worldAfterDo start0 download noWorld))).1.2) ∧
  twoTransfers
  = LogTransfer statsOn "download" (Some download)
      (LogTransfer statsOn "upload" (Some upload)
         (Reads statsOn [(start0 + 10, chunk); (start0 + 20, endOfStream)]
            (countingResponse download)
            (worldAfterDo (start0 + 5) upload (worldAfterDo start0 download noWorld))).1.2) ∧
  rangeOrder (httpTransferBuckets twoTransfers) ["upload"; "download"] ∧
  LogHttpStats statsOn reportEnv ["upload"; "download"] twoTransfers
  = Return (Fprint_stderr twoTransfers
              ["HTTP Stats logged to file " +:+ "http-1445000000.log" +:+ nl],
            Some ["concurrent=3 batch=true time=1445000000 version=1.0.0" +:+ nl;
                  "key=upload reqheader=58 reqbody=0 resheader=19 resbody=0 restime=-9223372036854775808 status=201 url=https://other/b" +:+ nl;
                  "key=download reqheader=58 reqbody=0 resheader=19 resbody=5 restime=20 status=200 url=https://host/a" +:+ nl]).
Proof.
  split; [reflexivity |]. split; [vm_compute; reflexivity |].
  split; [vm_compute; reflexivity |]. vm_compute. reflexivity.
Qed.

Lemma LogHttpStats_nil_dereference_sample :
  rangeOrder (httpTransferBuckets orphanBucket) ["download"] ∧
  httpTransferBuckets orphanBucket !! "download" = Some [Some download] ∧
  httpTransfers orphanBucket !! Response.addr download = None ∧
  LogHttpStats statsOn reportEnv ["download"] orphanBucket
  = Panic nilDereference.
Proof.
  assert (Hkeys : rangeOrder (httpTransferBuckets orphanBucket) ["download"]).
  { vm_compute. reflexivity. }
  split; [exact Hkeys |]. split; [reflexivity |]. split; [reflexivity |].
  apply (LogHttpStats_nil_dereference statsOn reportEnv ["download"] orphanBucket
           "http-1445000000.log" eq_refl eq_refl Hkeys).
  exists "download", [Some download], (Some download).
  split; [reflexivity |]. split; [apply list_elem_of_singleton; reflexivity | reflexivity].
Defined.

(* ===================================================================== *)
(** * Further properties of the code                                      *)
(* ===================================================================== *)

(** ** More on the redirect policy *)

Lemma copyHeader_eta oldest req key :
  copyHeader oldest req key
  = Request.with_Header req (Request.Header (copyHeader oldest req key)).
Proof. unfold copyHeader. case_match; by destruct req. Qed.

(** The loop writes to the header map of the new request and to nothing
    else of it. *)
Lemma copyHeaders_eta oldest keys req :
  foldl (copyHeader oldest) req keys
  = Request.with_Header req (Request.Header (foldl (copyHeader oldest) req keys)).
Proof.
  induction keys as [|key keys IH] using rev_ind; [by destruct req |].
  rewrite foldl_snoc, copyHeader_eta. rewrite IH at 1. done.
Qed.

Lemma copyHeaders_perm oldest keys1 keys2 req :
  keys1 ≡ₚ keys2 →
  foldl (copyHeader oldest) req keys1 = foldl (copyHeader oldest) req keys2.
Proof.
  intros Hperm.
  rewrite (copyHeaders_eta oldest keys1), (copyHeaders_eta oldest keys2). f_equal.
  apply map_eq. intros k. rewrite !copyHeaders_lookup.
  apply (f_equal (λ b : bool, if b then _ else _)), bool_decide_ext.
  by rewrite Hperm.
Qed.

(** X1. The outcome of [checkRedirect] does not depend on the order in
    which [range] visits the keys of the original's header: two visits
    of the same keys return the same error, leave the same request and
    trace the same line. *)
Theorem checkRedirect_order_independent keys1 keys2 req via :
  keys1 ≡ₚ keys2 →
  checkRedirect keys1 req via = checkRedirect keys2 req via.
Proof.
  intros Hperm. unfold checkRedirect.
  destruct (3 <=? length via)%nat; [done |].
  destruct via as [|oldest rest]; [done |].
  by rewrite (copyHeaders_perm oldest keys1 keys2 req Hperm).
Qed.

Lemma SplitN2_head_free (s : string) (sep : ascii) : free_of sep (SplitN2_head s sep).
Proof.
  unfold free_of. induction s as [|c s IH]; simpl; [done |].
  destruct (Ascii.eqb c sep) eqn:Hc; simpl; [done |]. by rewrite Hc, IH.
Qed.

Lemma SplitN2_head_prefix (s : string) (sep : ascii) :
  ∃ rest, s = SplitN2_head s sep +:+ rest ∧
          (rest = EmptyString ∨ ∃ rest', rest = String sep rest').
Proof.
  induction s as [|c s (rest & IH & Hrest)]; simpl.
  - exists EmptyString. by split; [| left].
  - destruct (Ascii.eqb_spec c sep) as [-> | Hne].
    + exists (String sep s). split; [done |]. right. by eexists.
    + exists rest. split; [| done]. cbv [String.append]. fold String.append.
      by rewrite <- IH.
Qed.

(** X2. On a hop it allows, [checkRedirect] traces one line, made of the
    method of the original request and of the two URLs each cut before
    its first question mark: no query string reaches the trace.  Of the
    new request it leaves the method, the URL and the body as they
    were. *)
Theorem checkRedirect_traces_no_query keys req oldest rest :
  (length (oldest :: rest) < 3)%nat →
  ∃ r from to,
    checkRedirect keys req (oldest :: rest) = Return r ∧
    redirectTrace r
    = ["api: redirect " +:+ Request.Method oldest +:+ " " +:+ from +:+ " to " +:+ to] ∧
    free_of "?" from ∧ free_of "?" to ∧
    (∃ query, URL_String (Request.URL oldest) = from +:+ query ∧
              (query = EmptyString ∨ ∃ q, query = String "?" q)) ∧
    (∃ query, URL_String (Request.URL req) = to +:+ query ∧
              (query = EmptyString ∨ ∃ q, query = String "?" q)) ∧
    Request.Method (redirectReq r) = Request.Method req ∧
    Request.URL (redirectReq r) = Request.URL req ∧
    Request.Body (redirectReq r) = Request.Body req.
Proof.
  intros Hlen. eexists _, _, _. split; [by apply checkRedirect_allowed |].
  simpl. split; [done |].
  split; [apply SplitN2_head_free |]. split; [apply SplitN2_head_free |].
  split; [apply SplitN2_head_prefix |]. split; [apply SplitN2_head_prefix |].
  rewrite copyHeaders_eta. done.
Qed.

(** X3. The test that holds [Authorization] back compares the key as it
    is spelled in the map.  When the header map of the original holds a
    key of another spelling whose canonical form is [Authorization],
    that key is copied on every hop the policy allows, to another scheme
    or host as well: the new request leaves with what [Get] gives for
    [Authorization] on the original (its first value under the canonical
    key, the empty string if it has none). *)
Theorem checkRedirect_guard_is_by_spelling keys req oldest rest key :
  (length (oldest :: rest) < 3)%nat →
  key ∈ keys →
  key ≠ "Authorization" →
  CanonicalMIMEHeaderKey key = "Authorization" →
  ∃ r, checkRedirect keys req (oldest :: rest) = Return r ∧
       redirectErr r = None ∧
       Request.Header (redirectReq r) !! "Authorization"
       = Some [Header_Get (Request.Header oldest) "Authorization"].
Proof.
  intros Hlen Hin Hne Hcanon.
  eexists. split; [by apply checkRedirect_allowed |]. simpl. split; [done |].
  rewrite copyHeaders_lookup, bool_decide_eq_true_2; [done |].
  apply list_elem_of_fmap. exists key. split; [done |].
  apply list_elem_of_filter. split; [| done].
  unfold copied. by destruct (String.eqb_spec key "Authorization").
Qed.

(** ** More on [Do] and on the counting streams *)

Lemma readResults_Reads Config start reads c w :
  (Reads Config (map (pair start) reads) c w).2 = readResults reads.
Proof.
  rewrite Reads_results. unfold readResults.
  rewrite <- list_fmap_compose. done.
Qed.

(** The count of the request stream when the transport comes back. *)
Lemma afterTransport_Count Config lib start req w :
  Count (afterTransport Config lib start req w).1
  = int_wrap (countedBytes (readResults (default [] (Request.Body req)))).
Proof.
  unfold afterTransport. destruct (Request.Body req) as [reads|]; simpl; [| done].
  destruct (Reads_Count Config (map (pair start) reads) (countingRequest req)
              (traceHttpRequest Config lib req w)) as [-> _].
  - simpl. unfold int_range. lia.
  - by rewrite readResults_Reads.
Qed.

Lemma Do_success Config lib start res req w :
  isLoggingStats Config = true →
  ∃ w',
    Do Config lib start (Some res, None) req w
    = Return (w', {| doRes := Some res; doErr := None;
                     doBody := Some (countingResponse res) |}) ∧
    httpTransfers w'
    = <[Response.addr res := openingRecord lib start res req]> (httpTransfers w) ∧
    httpTransferBuckets w' = httpTransferBuckets w.
Proof.
  intros Hstats. rewrite Do_unfold. cbv zeta. rewrite Hstats.
  eexists. split; [reflexivity |].
  destruct (afterTransport_registry Config lib start req w) as [Ht Hb].
  destruct (traceHttpResponse_registry Config lib (Some res)
              (afterTransport Config lib start req w).2) as [Ht' Hb'].
  split.
  - cbn [httpTransfers with_httpTransfers].
    rewrite afterTransport_Count. unfold openingRecord, dumpSize.
    by rewrite Ht', Ht.
  - cbn [httpTransferBuckets with_httpTransfers]. by rewrite Hb', Hb.
Qed.

(** X4. With statistics logged, a call of [Do] the transport answers
    opens the record of the response, under its identity, and touches no
    other record and no bucket.  The request side of the record is
    complete: the size of the header dump (zero if the dump failed) and
    the bytes of the request body counted while the transport read it.
    The response side holds the size of its header dump and the start
    time, with body size and stop time still zero.  The body of the
    response returned is a counting stream of that response, at zero. *)
Theorem Do_opens_the_record_of_the_response Config lib start res req w :
  isLoggingStats Config = true →
  ∃ w',
    Do Config lib start (Some res, None) req w
    = Return (w', {| doRes := Some res; doErr := None;
                     doBody := Some (countingResponse res) |}) ∧
    httpTransfers w'
    = <[Response.addr res :=
          {| requestStats :=
               {| HeaderSize := dumpSize (DumpRequest lib req);
                  BodySize :=
                    int_wrap (countedBytes (readResults (default [] (Request.Body req))));
                  Start := zeroTime; Stop := zeroTime |};
             responseStats :=
               {| HeaderSize := dumpSize (DumpResponse lib res);
                  BodySize := 0; Start := start; Stop := zeroTime |} |}]>
        (httpTransfers w) ∧
    httpTransferBuckets w' = httpTransferBuckets w.
Proof. apply Do_success. Qed.

(** What a call of [Read] does to the records: nothing, or the one write
    of the end of the stream. *)
Lemma Read_httpTransfers_cases Config now r c w :
  httpTransfers (Read Config now r c w).1.2 = httpTransfers w ∨
  ∃ res t, response c = Some res ∧
           httpTransfers w !! Response.addr res = Some t ∧
           httpTransfers (Read Config now r c w).1.2
           = <[Response.addr res := finalize t (Count (Read Config now r c w).1.1) now]>
               (httpTransfers w).
Proof.
  destruct (error_cases (err r)) as [Herr | [Herr | [msg Herr]]].
  - left. apply Read_httpTransfers_unchanged. right. right. by rewrite Herr.
  - destruct (isLoggingStats Config) eqn:Hstats;
      [| left; apply Read_httpTransfers_unchanged; by left].
    destruct (response c) as [res|] eqn:Hres;
      [| left; apply Read_httpTransfers_unchanged; right; by left].
    destruct (httpTransfers w !! Response.addr res) as [t|] eqn:Ht.
    + right. exists res, t. split; [done |]. split; [done |].
      rewrite (Read_EOF_finalizes _ _ _ _ _ _ _ Hstats Herr Hres Ht).
      by rewrite Read_Count, Herr.
    + left. rewrite (Read_EOF _ _ _ _ _ Herr). simpl. rewrite Hstats.
      unfold finalizeTransfer. simpl. rewrite Hres.
      rewrite traceChunk_httpTransfers, Ht. simpl.
      by rewrite ?traceChunk_httpTransfers.
  - left. by rewrite (Read_error _ _ _ _ _ _ Herr).
Qed.

Lemma Read_lookup Config now r c w (a : positive) t' :
  httpTransfers (Read Config now r c w).1.2 !! a = Some t' →
  ∃ t, httpTransfers w !! a = Some t ∧ sameOpening t' t ∧
       (Some a ≠ Response.addr <$> response c → t' = t).
Proof.
  intros Hafter.
  destruct (Read_httpTransfers_cases Config now r c w)
    as [Hsame | (res & t & Hres & Ht & Hnew)].
  - rewrite Hsame in Hafter. exists t'. by repeat split.
  - rewrite Hnew in Hafter. apply lookup_insert_Some in Hafter as [[<- <-] | [Hne Hold]].
    + exists t. split; [done |]. split; [by repeat split |].
      rewrite Hres. simpl. congruence.
    + exists t'. by repeat split.
Qed.

(** X5. [Read] makes no record and writes to one record at most, that of
    the response of its stream, and there to the body size and the stop
    time alone: a record found after the call was there before, with the
    same request side, the same header size and the same start time, and
    is the very same if it belongs to another response. *)
Theorem Read_writes_only_BodySize_and_Stop Config now r c w (a : positive) t' :
  httpTransfers (Read Config now r c w).1.2 !! a = Some t' →
  ∃ t, httpTransfers w !! a = Some t ∧
       requestStats t' = requestStats t ∧
       HeaderSize (responseStats t') = HeaderSize (responseStats t) ∧
       Start (responseStats t') = Start (responseStats t) ∧
       (Some a ≠ Response.addr <$> response c → t' = t).
Proof.
  intros (t & Ht & (Hreq & Hsize & Hstart) & Hother)%Read_lookup.
  exists t. by repeat split.
Qed.

(** ** What reaches the diagnostic sinks *)










(** ** The registry along a run *)

Lemma sameOpening_refl t : sameOpening t t.
Proof. by repeat split. Qed.

Lemma sameOpening_trans t1 t2 t3 :
  sameOpening t1 t2 → sameOpening t2 t3 → sameOpening t1 t3.
Proof. intros (? & ? & ?) (? & ? & ?). repeat split; congruence. Qed.

Lemma finalize_sameOpening t1 t count now :
  sameOpening t1 t → finalize t1 count now = finalize t count now.
Proof. intros (Hreq & Hsize & Hstart). unfold finalize. by rewrite Hreq, Hsize, Hstart. Qed.

Lemma Read_opening_kept Config now r c w (a : positive) t :
  httpTransfers w !! a = Some t →
  ∃ t', httpTransfers (Read Config now r c w).1.2 !! a = Some t' ∧ sameOpening t' t.
Proof.
  intros Ht.
  destruct (Read_record_kept Config now r c w a) as [t' Ht']; [by eexists |].
  exists t'. split; [done |].
  destruct (Read_lookup _ _ _ _ _ _ _ Ht') as (t0 & Ht0 & Hsame & _). congruence.
Qed.

Lemma Reads_opening_kept Config calls c w (a : positive) t :
  httpTransfers w !! a = Some t →
  ∃ t', httpTransfers (Reads Config calls c w).1.2 !! a = Some t' ∧ sameOpening t' t.
Proof.
  revert c w t. induction calls as [|[now r] calls IH]; intros c w t Ht.
  - exists t. split; [done | apply sameOpening_refl].
  - rewrite Reads_cons. cbv zeta. cbn [fst snd].
    destruct (Read_opening_kept Config now r c w a t Ht) as (t1 & Ht1 & Hsame1).
    destruct (IH (Read Config now r c w).1.1 _ t1 Ht1) as (t2 & Ht2 & Hsame2).
    exists t2. split; [done |]. by eapply sameOpening_trans.
Qed.

(** The record of a response once its stream was read to a call that
    returns end-of-stream. *)
Lemma Reads_to_EOF Config calls now r c w res t :
  isLoggingStats Config = true →
  response c = Some res →
  int_range (Count c) →
  httpTransfers w !! Response.addr res = Some t →
  err r = Some EOF →
  httpTransfers (Reads Config (calls ++ [(now, r)]) c w).1.2 !! Response.addr res
  = Some (finalize t
            (int_wrap (Count c + countedBytes (Reads Config (calls ++ [(now, r)]) c w).2))
            now) ∧
  httpTransferBuckets (Reads Config (calls ++ [(now, r)]) c w).1.2 = httpTransferBuckets w.
Proof.
  intros Hstats Hres Hc Ht Herr. split; [| apply Reads_httpTransferBuckets].
  destruct (Reads_Count Config (calls ++ [(now, r)]) c w Hc) as [<- _].
  rewrite Reads_app. cbv zeta. cbn [fst snd].
  set (s1 := Reads Config calls c w).
  destruct (Reads_opening_kept Config calls c w _ t Ht) as (t1 & Ht1 & Hsame).
  fold s1 in Ht1.
  assert (Hres1 : response s1.1.1 = Some res) by (unfold s1; by rewrite Reads_response).
  pose proof (Read_EOF_finalizes Config now r _ _ res t1 Hstats Herr Hres1 Ht1) as Hfin.
  pose proof (Read_Count Config now r s1.1.1 s1.1.2) as Hcount. rewrite Herr in Hcount.
  simpl. destruct (Read Config now r s1.1.1 s1.1.2) as [[c2 w2] out]. simpl in *.
  rewrite Hfin, lookup_insert_eq, Hcount. f_equal. by apply finalize_sameOpening.
Qed.

Lemma LogHttpStats_registry Config env keys w w' file :
  LogHttpStats Config env keys w = Return (w', file) →
  httpTransfers w' = httpTransfers w ∧ httpTransferBuckets w' = httpTransferBuckets w.
Proof.
  unfold LogHttpStats. destruct (isLoggingStats Config); simpl; [| by intros [= <- _]].
  destruct (statsLogFile env) as [name | e]; [| by intros [= <- _]].
  destruct (rangeBuckets _ _ _); simpl; [by intros [= <- _] | done].
Qed.

Lemma Do_registry Config lib start answer req w w' r :
  Do Config lib start answer req w = Return (w', r) →
  httpTransferBuckets w' = httpTransferBuckets w ∧
  (httpTransfers w' = httpTransfers w ∨
   ∃ res t, answer = (Some res, None) ∧
            httpTransfers w' = <[Response.addr res := t]> (httpTransfers w)).
Proof.
  destruct answer as [res e]. rewrite Do_unfold. cbv zeta.
  destruct (afterTransport_registry Config lib start req w) as [Ht Hb].
  destruct res as [res|], e as [e|].
  - intros [= <- _]. split; [exact Hb | left; exact Ht].
  - intros [= <- _].
    destruct (traceHttpResponse_registry Config lib (Some res)
                (afterTransport Config lib start req w).2) as [Ht' Hb'].
    destruct (isLoggingStats Config).
    + split; [exact (eq_trans Hb' Hb) |]. right. eexists res, _. split; [done |].
      cbn [httpTransfers with_httpTransfers]. f_equal. exact (eq_trans Ht' Ht).
    + split; [exact (eq_trans Hb' Hb) |]. left. exact (eq_trans Ht' Ht).
  - intros [= <- _]. split; [exact Hb | left; exact Ht].
  - done.
Qed.

Lemma grows_refl w : grows w w.
Proof. split; [done |]. intros key responses ->. exists []. by rewrite app_nil_r. Qed.

Lemma grows_trans w1 w2 w3 : grows w1 w2 → grows w2 w3 → grows w1 w3.
Proof.
  intros [Ht1 Hb1] [Ht2 Hb2]. split; [by intros a ?%Ht1%Ht2 |].
  intros key responses (more1 & (more2 & ->)%Hb2)%Hb1.
  exists (more1 ++ more2). by rewrite app_assoc.
Qed.

Lemma grows_same_buckets w w' :
  httpTransferBuckets w' = httpTransferBuckets w →
  (∀ a : positive, is_Some (httpTransfers w !! a) → is_Some (httpTransfers w' !! a)) →
  grows w w'.
Proof.
  intros Hb Ht. split; [done |]. rewrite Hb. intros key responses ->.
  exists []. by rewrite app_nil_r.
Qed.

Lemma call_grows Config k w w' : call Config k w = Return w' → grows w w'.
Proof.
  destruct k as [lib start answer req | now r c | key res | env keys]; simpl.
  - destruct (Do Config lib start answer req w) as [[w1 r1]|] eqn:HDo; [| done].
    simpl. intros [= <-].
    destruct (Do_registry _ _ _ _ _ _ _ _ HDo) as [Hb [Ht | (res & t & _ & Ht)]];
      apply grows_same_buckets; try done; rewrite Ht; [done |].
    intros a Ha. rewrite lookup_insert. by case_decide.
  - intros [= <-]. apply grows_same_buckets.
    + apply Read_httpTransferBuckets.
    + intros a. apply Read_record_kept.
  - intros [= <-]. unfold LogTransfer. destruct (isLoggingStats Config);
      [| apply grows_refl].
    split; [done |]. simpl. intros key' responses Hkey'.
    destruct (decide (key = key')) as [<- | Hne].
    + rewrite lookup_insert_eq, Hkey'. simpl. by eexists.
    + rewrite lookup_insert_ne by done. exists []. by rewrite app_nil_r.
  - destruct (LogHttpStats Config env keys w) as [[w1 file]|] eqn:Hlog; [| done].
    simpl. intros [= <-].
    destruct (LogHttpStats_registry _ _ _ _ _ _ Hlog) as [Ht Hb].
    apply grows_same_buckets; [done |]. by rewrite Ht.
Qed.

(** X8. Whatever the calls of [Do], [Read], [LogTransfer] and
    [LogHttpStats] a program makes, in whatever order and with or without
    [isLoggingStats]: no record is ever removed from [httpTransfers],
    and a bucket only ever grows at its end (no key of
    [httpTransferBuckets] is removed, no response in a bucket is removed
    or moved). *)
Theorem registry_only_grows Config ks w w' :
  calls Config ks w = Return w' →
  (∀ a : positive, is_Some (httpTransfers w !! a) → is_Some (httpTransfers w' !! a)) ∧
  (∀ key responses, httpTransferBuckets w !! key = Some responses →
     ∃ more, httpTransferBuckets w' !! key = Some (responses ++ more)).
Proof.
  revert w. induction ks as [|k ks IH]; intros w; simpl.
  - intros [= <-]. apply grows_refl.
  - destruct (call Config k w) as [w1|] eqn:Hcall; [| done]. simpl.
    intros Hrest. eapply grows_trans; [by eapply call_grows | by apply IH].
Qed.

Lemma bucketedCount_insert (buckets : gmap string (list (option Response.t))) key res :
  bucketedCount (<[key := default [] (buckets !! key) ++ [res]]> buckets)
  = S (bucketedCount buckets).
Proof.
  unfold bucketedCount.
  destruct (buckets !! key) as [responses|] eqn:Hkey; simpl.
  - rewrite <- insert_delete_eq.
    rewrite map_to_list_insert by apply lookup_delete_eq.
    rewrite <- (insert_delete_id buckets key responses Hkey) at 2.
    rewrite map_to_list_insert by apply lookup_delete_eq.
    simpl. rewrite length_app. simpl. lia.
  - by rewrite map_to_list_insert.
Qed.

Lemma call_bucketedCount Config k w w' :
  call Config k w = Return w' →
  bucketedCount (httpTransferBuckets w')
  = (bucketedCount (httpTransferBuckets w)
     + (if isLoggingStats Config && isLogTransfer k then 1 else 0))%nat.
Proof.
  destruct k as [lib start answer req | now r c | key res | env keys]; simpl;
    rewrite ?andb_false_r, ?Nat.add_0_r.
  - destruct (Do Config lib start answer req w) as [[w1 r1]|] eqn:HDo; [| done].
    simpl. intros [= <-]. by destruct (Do_registry _ _ _ _ _ _ _ _ HDo) as [-> _].
  - intros [= <-]. by rewrite Read_httpTransferBuckets.
  - intros [= <-]. unfold LogTransfer. rewrite andb_true_r.
    destruct (isLoggingStats Config); simpl; [| lia].
    rewrite bucketedCount_insert. lia.
  - destruct (LogHttpStats Config env keys w) as [[w1 file]|] eqn:Hlog; [| done].
    simpl. intros [= <-]. by destruct (LogHttpStats_registry _ _ _ _ _ _ Hlog) as [_ ->].
Qed.

(** X9. Along any calls of a program the buckets hold exactly as many
    transfers as [LogTransfer] was called with [isLoggingStats] set: one
    more per call, none lost, none added by any other function. *)
Theorem buckets_count_LogTransfer_calls Config ks w w' :
  calls Config ks w = Return w' →
  bucketedCount (httpTransferBuckets w')
  = (bucketedCount (httpTransferBuckets w)
     + (if isLoggingStats Config then length (filter isLogTransfer ks) else 0))%nat.
Proof.
  revert w. induction ks as [|k ks IH]; intros w; simpl.
  - intros [= <-]. destruct (isLoggingStats Config); simpl; lia.
  - destruct (call Config k w) as [w1|] eqn:Hcall; [| done]. simpl.
    intros Hrest. rewrite (IH _ Hrest), (call_bucketedCount _ _ _ _ Hcall).
    rewrite filter_cons.
    destruct (isLoggingStats Config), (isLogTransfer k); simpl; lia.
Qed.

(** X10. A transfer from end to end, in a process whose buckets are still
    empty and with statistics logged: [Do] answered by the transport,
    the body read up to a call that returns end-of-stream, the response
    logged under a key, and the report written.  The file holds the
    summary line and one line for the transfer, with the sizes of the
    two header dumps, the bytes counted on the request body, as body size
    the sum (in Go's [int]) of the bytes of the reads that returned no
    error or end-of-stream, and as time the time from the start of [Do]
    to the read that met the end of the stream. *)
Theorem transfer_from_Do_to_report Config lib env start res req key reads now r w name :
  isLoggingStats Config = true →
  httpTransferBuckets w = ∅ →
  statsLogFile env = inl name →
  err r = Some EOF →
  ∃ w1 body,
    Do Config lib start (Some res, None) req w
    = Return (w1, {| doRes := Some res; doErr := None; doBody := Some body |}) ∧
    let s := Reads Config (reads ++ [(now, r)]) body w1 in
    let w2 := LogTransfer Config key (Some res) s.1.2 in
    rangeOrder (httpTransferBuckets w2) [key] ∧
    ∃ w3,
      LogHttpStats Config env [key] w2
      = Return (w3,
                Some [summaryLine env;
                      statsLine key
                        {| requestStats := requestStats (openingRecord lib start res req);
                           responseStats :=
                             {| HeaderSize := dumpSize (DumpResponse lib res);
                                BodySize := int_wrap (countedBytes s.2);
                                Start := start;
                                Stop := now |} |}
                        res]).
Proof.
  intros Hstats Hempty Hfile Herr.
  destruct (Do_success Config lib start res req w Hstats) as (w1 & HDo & Ht1 & Hb1).
  exists w1, (countingResponse res). split; [done |]. cbv zeta.
  destruct (Reads_to_EOF Config reads now r (countingResponse res) w1 res
              (openingRecord lib start res req) Hstats eq_refl)
    as [Hrec Hb]; [simpl; unfold int_range; lia | by rewrite Ht1, lookup_insert_eq | done |].
  set (s := Reads Config (reads ++ [(now, r)]) (countingResponse res) w1) in *.
  destruct (LogTransfer_appends Config key (Some res) s.1.2 Hstats) as [Hb2 Ht2].
  rewrite Hb, Hb1, Hempty, lookup_empty in Hb2. simpl in Hb2.
  split.
  - unfold rangeOrder. rewrite Hb2, insert_empty, map_to_list_singleton. done.
  - rewrite (LogHttpStats_unfold _ _ _ _ _ Hstats Hfile).
    cbn [rangeBuckets]. rewrite Hb2, lookup_insert_eq, Ht2.
    change (default [] (Some [Some res])) with [Some res].
    cbn [rangeResponses]. unfold transferLine. rewrite Hrec.
    eexists. reflexivity.
Qed.

(** ** More on the header trace and on the traceable types *)

Lemma SplitN2_head_app (s rest : string) (sep : ascii) :
  free_of sep s → SplitN2_head (s +:+ String sep rest) sep = s.
Proof.
  unfold free_of. induction s as [|c s IH]; simpl.
  - by rewrite Ascii.eqb_refl.
  - intros [Hc Hs]%andb_prop. apply negb_true_iff in Hc. rewrite Hc.
    by rewrite IH.
Qed.

Lemma SplitN2_head_id (s : string) (sep : ascii) :
  free_of sep s → SplitN2_head s sep = s.
Proof.
  unfold free_of. induction s as [|c s IH]; simpl; [done |].
  intros [Hc Hs]%andb_prop. apply negb_true_iff in Hc. rewrite Hc.
  by rewrite IH.
Qed.

(** X11. Whether a content is traceable is read off the first value of
    [Content-Type] alone, and of it off the type before the first
    semicolon, in lower case: the content is traceable exactly when that
    type holds [json], [text], [xml] or [html] somewhere; what follows
    the semicolon (a charset, a file name) has no say.  Without a
    [Content-Type] header the content is not traceable. *)
Theorem isTraceableContent_reads_the_type (h : Header) :
  (h !! "Content-Type" = None → isTraceableContent h = false) ∧
  (∀ type params rest,
     free_of ";" type →
     h !! "Content-Type" = Some (type :: rest) ∨
     h !! "Content-Type" = Some ((type +:+ String ";" params) :: rest) →
     isTraceableContent h = existsb (Contains (ToLower type)) tracedTypes).
Proof.
  unfold isTraceableContent, Header_Get.
  change (CanonicalMIMEHeaderKey "Content-Type") with "Content-Type".
  split.
  - by intros ->.
  - intros type params rest Hfree [-> | ->].
    + by rewrite SplitN2_head_id.
    + by rewrite SplitN2_head_app.
Qed.







(** ** The clients by host *)

Lemma HttpClient_for_hit s host c client :
  cached c host = Some client →
  HttpClient_for s host c = (c, client).
Proof.
  unfold cached, HttpClient_for. destruct c as [[clients|] next]; simpl; [| done].
  by intros ->.
Qed.

Lemma HttpClient_for_returns_cached s host c :
  cached (HttpClient_for s host c).1 host = Some (HttpClient_for s host c).2.
Proof.
  unfold cached, HttpClient_for.
  destruct (default ∅ (httpClients c) !! host) as [client|] eqn:Hhost; simpl.
  - done.
  - by rewrite lookup_insert_eq.
Qed.

Lemma HttpClient_for_keeps s host c host' client :
  cached c host' = Some client →
  cached (HttpClient_for s host c).1 host' = Some client.
Proof.
  intros Hc. destruct (cached c host) as [client0|] eqn:Hhost.
  - by rewrite (HttpClient_for_hit _ _ _ _ Hhost).
  - unfold cached, HttpClient_for in *. destruct c as [[clients|] next]; simpl in *; [| done].
    rewrite Hhost. simpl. rewrite lookup_insert_ne; [done |]. congruence.
Qed.

Lemma HttpClient_calls_cons s host calls c :
  HttpClient_calls ((s, host) :: calls) c =
    let st := HttpClient_for s host c in
    let st' := HttpClient_calls calls st.1 in
    (st'.1, st.2 :: st'.2).
Proof.
  cbn [HttpClient_calls]. destruct (HttpClient_for s host c) as [c1 client]. cbn.
  by destruct (HttpClient_calls calls c1).
Qed.

Lemma HttpClient_calls_keep calls c host client :
  cached c host = Some client →
  cached (HttpClient_calls calls c).1 host = Some client.
Proof.
  revert c. induction calls as [|[s host'] calls IH]; intros c Hc; [done |].
  rewrite HttpClient_calls_cons. cbv zeta. simpl.
  by apply IH, HttpClient_for_keeps.
Qed.

(** X13. The client made for a host is made once.  Every later call of
    [HttpClient] for that host returns that same client, whatever calls
    for this or other hosts came in between, and whatever the settings
    have become since: a changed timeout, limit or certificate policy
    does not reach a host already served.  Such a call leaves the state
    as it was. *)
Theorem HttpClient_is_made_once s host c calls s' :
  let first := HttpClient_for s host c in
  let between := HttpClient_calls calls first.1 in
  HttpClient_for s' host between.1 = (between.1, first.2).
Proof.
  cbv zeta. apply HttpClient_for_hit, HttpClient_calls_keep,
    HttpClient_for_returns_cached.
Qed.

Lemma distinctInstances_noClients : distinctInstances noClients.
Proof. by split. Qed.

Lemma cached_new s host c host' client :
  cached c host = None →
  cached (HttpClient_for s host c).1 host' = Some client →
  (host' = host ∧ instance client = nextInstance c) ∨ cached c host' = Some client.
Proof.
  unfold cached at 1 3, HttpClient_for, cached. intros Hnone.
  destruct c as [[clients|] next]; simpl in *.
  - rewrite Hnone. simpl. intros [[-> <-] | [_ ?]]%lookup_insert_Some; [by left | by right].
  - rewrite lookup_empty. simpl.
    intros [[-> <-] | [_ Hold]]%lookup_insert_Some; [by left |].
    by rewrite lookup_empty in Hold.
Qed.

Lemma HttpClient_for_distinct s host c :
  distinctInstances c → distinctInstances (HttpClient_for s host c).1.
Proof.
  intros [Hbelow Hinj]. destruct (cached c host) as [client0|] eqn:Hhost.
  - by rewrite (HttpClient_for_hit _ _ _ _ Hhost).
  - assert (Hnext : nextInstance (HttpClient_for s host c).1 = Pos.succ (nextInstance c)).
    { unfold cached, HttpClient_for in *. destruct c as [[clients|] next]; simpl in *.
      - by rewrite Hhost.
      - by rewrite lookup_empty. }
    split.
    + intros host' client [[-> ->] | Hold]%(cached_new _ _ _ _ _ Hhost); rewrite Hnext.
      * lia.
      * specialize (Hbelow _ _ Hold). lia.
    + intros host1 host2 client1 client2
        [[-> Hi1] | Hold1]%(cached_new _ _ _ _ _ Hhost)
        [[-> Hi2] | Hold2]%(cached_new _ _ _ _ _ Hhost) Heq.
      * done.
      * specialize (Hbelow _ _ Hold2). lia.
      * specialize (Hbelow _ _ Hold1). lia.
      * by eapply Hinj.
Qed.

Lemma HttpClient_calls_distinct calls c :
  distinctInstances c → distinctInstances (HttpClient_calls calls c).1.
Proof.
  revert c. induction calls as [|[s host] calls IH]; intros c Hc; [done |].
  rewrite HttpClient_calls_cons. cbv zeta. simpl.
  by apply IH, HttpClient_for_distinct.
Qed.

(** X14. Starting from the empty configuration, whatever the calls of
    [HttpClient]: the clients of two different hosts are two different
    clients (no transport, and so no pool of connections, is shared
    between hosts), even where the settings gave them the same
    timeouts. *)
Theorem HttpClient_one_client_per_host calls host1 host2 client1 client2 :
  host1 ≠ host2 →
  cached (HttpClient_calls calls noClients).1 host1 = Some client1 →
  cached (HttpClient_calls calls noClients).1 host2 = Some client2 →
  instance client1 ≠ instance client2.
Proof.
  destruct (HttpClient_calls_distinct calls noClients distinctInstances_noClients)
    as [_ Hinj].
  intros Hne H1 H2 Heq. apply Hne. by apply (Hinj host1 host2 client1 client2).
Qed.

(** ** The choice of the test files *)

Section integration.
Import Integration.

Lemma fileMapOf_lookup_from (m : gmap string bool) files file :
  default false (foldl (λ m file, <[file := true]> m) m files !! file) = true
  ↔ file ∈ files ∨ default false (m !! file) = true.
Proof.
  revert m. induction files as [|f files IH]; intros m; simpl.
  - split; [by right | intros [Hin | ?]; [by apply elem_of_nil in Hin | done]].
  - rewrite IH, elem_of_cons. destruct (decide (f = file)) as [-> | Hne].
    + rewrite lookup_insert_eq. simpl. split; [intros _; left; by left | intros _; by right].
    + rewrite lookup_insert_ne by done.
      split; [intros [? | ?]; [left; by right | by right]
             | intros [[? | ?] | ?]; [done | by left | by right]].
Qed.

(** [fileMap] answers true for the files put in it and for no other. *)
Lemma fileMapOf_lookup files file :
  default false (fileMapOf files !! file) = bool_decide (file ∈ files).
Proof.
  unfold fileMapOf. apply eq_true_iff_eq.
  rewrite fileMapOf_lookup_from, lookup_empty, bool_decide_eq_true. simpl.
  split; [by intros [? | ?] | by left].
Qed.

Lemma selectArgs_from all acc Args :
  foldl (selectArg (fileMapOf all)) acc Args
  = acc ++ (fullname <$> filter (λ arg, fullname arg ∈ all) Args).
Proof.
  revert acc. induction Args as [|arg Args IH]; intros acc; cbn [foldl].
  - by rewrite app_nil_r.
  - rewrite IH, filter_cons. unfold selectArg. fold (fullname arg).
    rewrite fileMapOf_lookup. case_bool_decide as Hin.
    + rewrite decide_True by done. rewrite fmap_cons, <- app_assoc. done.
    + by rewrite decide_False by done.
Qed.

Lemma visit_files debugging files v :
  (visit debugging files v).2 = files ++ (if isTestFile v then [path v] else []).
Proof.
  unfold visit, isTestFile.
  destruct (failed v), (IsDir v), (MatchString (path v)); simpl; by rewrite ?app_nil_r.
Qed.

Lemma visit_quiet files v : (visit false files v).1 = [].
Proof. unfold visit. by case_match. Qed.

Lemma allTestFiles_from_cons debugging files v walk :
  allTestFiles_from debugging files (v :: walk) =
    let st := visit debugging files v in
    let st' := allTestFiles_from debugging st.2 walk in
    (st.1 ++ st'.1, st'.2).
Proof.
  cbn [allTestFiles_from]. destruct (visit debugging files v) as [out files1]. cbn.
  by destruct (allTestFiles_from debugging files1 walk).
Qed.

Lemma allTestFiles_from_files debugging files walk :
  (allTestFiles_from debugging files walk).2 = files ++ (path <$> filter isTestFile walk).
Proof.
  revert files. induction walk as [|v walk IH]; intros files.
  - simpl. by rewrite app_nil_r.
  - rewrite allTestFiles_from_cons. cbv zeta. cbn [snd].
    rewrite IH, visit_files, filter_cons.
    destruct (isTestFile v); simpl; [by rewrite <- app_assoc | by rewrite app_nil_r].
Qed.

Lemma allTestFiles_from_quiet files walk :
  (allTestFiles_from false files walk).1 = [].
Proof.
  revert files. induction walk as [|v walk IH]; intros files; [done |].
  rewrite allTestFiles_from_cons. cbv zeta. cbn [fst]. by rewrite IH, visit_quiet.
Qed.

Lemma testFiles_files debugging Args walk :
  (testFiles debugging Args walk).2
  = if (length Args <? 4)%nat then (allTestFiles debugging walk).2
    else fullname <$> filter (λ arg, fullname arg ∈ (allTestFiles debugging walk).2) Args.
Proof.
  unfold testFiles. destruct (allTestFiles debugging walk) as [out all]. simpl.
  destruct (length Args <? 4)%nat; [done |]. simpl. by rewrite selectArgs_from.
Qed.

(** X15. [allTestFiles] returns, in the order of the walk, the paths of
    the visits that came without an error, are no directory and match
    [testPattern], and of no other visit; it prints nothing unless
    [debugging] is set.  A walk that fails at its root gives no file. *)
Theorem allTestFiles_are_the_matching_files debugging walk :
  (allTestFiles debugging walk).2 = path <$> filter isTestFile walk ∧
  (allTestFiles false walk).1 = [].
Proof.
  unfold allTestFiles. split.
  - apply (allTestFiles_from_files debugging []).
  - apply allTestFiles_from_quiet.
Qed.

(** X16. With fewer than four arguments of the process [testFiles]
    returns every test file of the walk.  With four or more it returns,
    in the order of the arguments, [test/test-ARG.sh] for each argument
    (the name of the program and the three arguments after it among
    them) for which this very path is a test file of the walk; an
    argument given twice gives its file twice, and an argument that
    names no test file is passed over without a word. *)
Theorem testFiles_chooses_by_argument debugging Args walk :
  ((length Args < 4)%nat →
   (testFiles debugging Args walk).2 = (allTestFiles debugging walk).2) ∧
  ((4 ≤ length Args)%nat →
   (testFiles debugging Args walk).2
   = fullname <$> filter (λ arg, fullname arg ∈ (allTestFiles debugging walk).2) Args).
Proof.
  rewrite testFiles_files.
  destruct (Nat.ltb_spec (length Args) 4); split; (done || lia).
Qed.

Lemma fullname_has_slash arg : ¬ free_of "/" (fullname arg).
Proof. unfold free_of, fullname. simpl. done. Qed.

(** X17. The paths [testFiles] compares with are spelled with a forward
    slash.  On a walk whose paths hold none (the paths [filepath.Walk]
    gives on Windows, which [testPattern] matches as well), choosing
    tests by argument finds no file at all. *)
Theorem testFiles_finds_nothing_without_slash debugging Args walk :
  (4 ≤ length Args)%nat →
  Forall (λ v, free_of "/" (path v)) walk →
  (testFiles debugging Args walk).2 = [].
Proof.
  intros Hlen Hwalk. rewrite testFiles_files.
  destruct (Nat.ltb_spec (length Args) 4); [lia |]. clear Hlen H.
  unfold allTestFiles. rewrite (allTestFiles_from_files debugging []). simpl.
  induction Args as [|arg Args' IH]; [done |].
  rewrite filter_cons, decide_False; [apply IH |].
  intros [v [Hpath Hv]]%list_elem_of_fmap.
  apply list_elem_of_filter in Hv as [_ Hv].
  rewrite Forall_forall in Hwalk. specialize (Hwalk v Hv).
  rewrite <- Hpath in Hwalk. by apply fullname_has_slash in Hwalk.
Qed.

(** X18. [erroring] is set by the first test that ends with an error and
    is never cleared: after the calls of [sendTestOutput] of a run, in
    whatever order they were made, it is set exactly when it was set
    before or some test ended with an error, so the exit status tells
    whether any test failed.  Every call sends one message, and
    [debugging] is left as it was. *)
Theorem sendTestOutputs_erroring lib g calls :
  erroring (sendTestOutputs lib g calls).1
  = erroring g || existsb (λ call, bool_decide (is_Some call.2)) calls ∧
  debugging (sendTestOutputs lib g calls).1 = debugging g ∧
  length (sendTestOutputs lib g calls).2 = length calls.
Proof.
  revert g. induction calls as [|[[testname buf] err] calls IH]; intros g.
  - simpl. by rewrite orb_false_r.
  - cbn [sendTestOutputs].
    destruct (sendTestOutput lib g testname buf err) as [g1 msg] eqn:Hsend.
    specialize (IH g1). destruct (sendTestOutputs lib g1 calls) as [g2 msgs].
    simpl in *. destruct IH as (-> & -> & ->).
    unfold sendTestOutput in Hsend. destruct err as [e|]; injection Hsend as <- <-; simpl.
    + by rewrite orb_true_r.
    + done.
Qed.

(** *** [testPattern] *)

Lemma append_cons c s t : String c s +:+ t = String c (s +:+ t).
Proof. reflexivity. Qed.

Lemma append_empty t : EmptyString +:+ t = t.
Proof. reflexivity. Qed.

Lemma stripPrefix_Some p s r : stripPrefix p s = Some r ↔ s = p +:+ r.
Proof.
  revert s. induction p as [|a p IH]; intros s.
  - rewrite append_empty. cbn [stripPrefix]. split; [by intros [= ->] | by intros ->].
  - rewrite append_cons. destruct s as [|b s]; cbn [stripPrefix]; [done |].
    destruct (Ascii.eqb_spec a b) as [-> | Hne].
    + rewrite IH. split; [by intros -> | by intros [= ->]].
    + split; [done | intros [= ? _]; by subst].
Qed.

Lemma isNameByte_dot : isNameByte "." = false.
Proof. reflexivity. Qed.

Lemma matchName_spec seen s :
  matchName seen s = true ↔
  ∃ name, s = name +:+ ".sh" ∧ (seen = true ∨ name ≠ EmptyString) ∧
          forallb isNameByte (String.list_ascii_of_string name) = true.
Proof.
  revert seen. induction s as [|c s IH]; intros seen; cbn [matchName].
  - split; [done | intros ([|c name] & Heq & _); by rewrite ?append_cons in Heq].
  - destruct (isNameByte c) eqn:Hc.
    + rewrite IH. split.
      * intros (name & -> & _ & Hall). exists (String c name).
        rewrite append_cons. split; [done |]. split; [by right |].
        cbn [String.list_ascii_of_string forallb]. by rewrite Hc.
      * intros ([|c' name] & Heq & _ & Hall).
        -- rewrite append_empty in Heq. injection Heq as -> _.
           by rewrite isNameByte_dot in Hc.
        -- rewrite append_cons in Heq. injection Heq as -> ->.
           cbn [String.list_ascii_of_string forallb] in Hall.
           apply andb_true_iff in Hall as [_ Hall].
           exists name. split; [done |]. split; [by left | done].
    + rewrite andb_true_iff, String.eqb_eq. split.
      * intros [-> Heq]. exists EmptyString. rewrite append_empty.
        split; [done |]. split; [by left | done].
      * intros ([|c' name] & Heq & Hseen & Hall).
        -- rewrite append_empty in Heq. split; [by destruct Hseen | done].
        -- rewrite append_cons in Heq. injection Heq as -> ->.
           cbn [String.list_ascii_of_string forallb] in Hall.
           apply andb_true_iff in Hall as [Hc' _]. by rewrite Hc in Hc'.
Qed.

Lemma matchHere_spec s :
  matchHere s = true ↔
  ∃ sep name, s = "test" +:+ String sep ("test-" +:+ name +:+ ".sh") ∧
              (sep = "/"%char ∨ sep = "\"%char) ∧ isName name.
Proof.
  unfold matchHere, isName. split.
  - destruct (stripPrefix "test" s) as [[|sep rest]|] eqn:Htest; [done | | done].
    apply stripPrefix_Some in Htest as ->.
    rewrite andb_true_iff, orb_true_iff, !Ascii.eqb_eq. intros [Hsep Hname].
    destruct (stripPrefix "test-" rest) as [name|] eqn:Hrest; [| done].
    apply stripPrefix_Some in Hrest as ->.
    apply matchName_spec in Hname as (name' & -> & [? | Hne] & Hall); [done |].
    by exists sep, name'.
  - intros (sep & name & -> & Hsep & Hne & Hall).
    rewrite (proj2 (stripPrefix_Some "test" _ _) eq_refl).
    rewrite (proj2 (stripPrefix_Some "test-" _ _) eq_refl).
    rewrite andb_true_iff, orb_true_iff, !Ascii.eqb_eq. split; [done |].
    apply matchName_spec. exists name. split; [done |]. split; [by right | done].
Qed.

Lemma MatchString_unfold p :
  MatchString p =
    matchHere p || match p with EmptyString => false | String _ p' => MatchString p' end.
Proof. by destruct p. Qed.

Lemma MatchString_spec p :
  MatchString p = true ↔ ∃ pre suf, p = pre +:+ suf ∧ matchHere suf = true.
Proof.
  induction p as [|c p IH]; rewrite MatchString_unfold, orb_true_iff.
  - split.
    + intros [H | H]; [by exists EmptyString, EmptyString | done].
    + intros ([|c pre] & suf & Heq & H); [| by rewrite append_cons in Heq].
      rewrite append_empty in Heq. left. by subst.
  - rewrite IH. split.
    + intros [H | (pre & suf & -> & H)].
      * by exists EmptyString, (String c p).
      * exists (String c pre), suf. by rewrite append_cons.
    + intros ([|c' pre] & suf & Heq & H).
      * rewrite append_empty in Heq. left. by subst.
      * rewrite append_cons in Heq. injection Heq as -> ->. right. by exists pre, suf.
Qed.

(** X19. The matcher that stands for [testPattern] accepts exactly what
    the regular expression [test[/\\]test-([a-z\-]+)\.sh$] describes: the
    paths that end in [test], a slash or a backslash, [test-], a name that
    is not empty and holds only the bytes a to z and the hyphen, and
    [.sh]; anything may stand before. *)
Theorem MatchString_is_testPattern p :
  MatchString p = true ↔
  ∃ pre sep name,
    p = pre +:+ "test" +:+ String sep ("test-" +:+ name +:+ ".sh") ∧
    (sep = "/"%char ∨ sep = "\"%char) ∧ isName name.
Proof.
  rewrite MatchString_spec. split.
  - intros (pre & suf & -> & (sep & name & -> & Hsep & Hname)%matchHere_spec).
    by exists pre, sep, name.
  - intros (pre & sep & name & -> & Hsep & Hname).
    exists pre, ("test" +:+ String sep ("test-" +:+ name +:+ ".sh")).
    split; [done |]. apply matchHere_spec. by exists sep, name.
Qed.

Lemma testFiles_backslash_sample :
  (allTestFiles false backslashWalk).2 = ["test\test-push.sh"] ∧
  (testFiles false pushArgs backslashWalk).2 = [].
Proof.
  split; [reflexivity |].
  apply (testFiles_finds_nothing_without_slash false pushArgs backslashWalk).
  - simpl; lia.
  - repeat constructor.
Defined.

Lemma testFiles_sample :
  (testFiles false allArgs slashWalk).2 = ["test/test-pull.sh"; "test/test-push.sh"] ∧
  (testFiles false pushArgs slashWalk).2 = ["test/test-push.sh"].
Proof.
  destruct (testFiles_chooses_by_argument false allArgs slashWalk) as [Hall _].
  destruct (testFiles_chooses_by_argument false pushArgs slashWalk) as [_ Hpush].
  split.
  - rewrite Hall by (simpl; lia). reflexivity.
  - rewrite Hpush by (simpl; lia). reflexivity.
Defined.

End integration.

(** ** Sample runs of the further properties *)

Lemma checkRedirect_order_sample :
  ["Authorization"; "Accept"] ≡ₚ ["Accept"; "Authorization"] ∧
  checkRedirect ["Authorization"; "Accept"] redirected [original]
  = checkRedirect ["Accept"; "Authorization"] redirected [original].
Proof.
  split; [apply perm_swap |].
  apply (checkRedirect_order_independent
           ["Authorization"; "Accept"] ["Accept"; "Authorization"] redirected [original]).
  apply perm_swap.
Defined.

Lemma checkRedirect_trace_sample :
  URL_String (Request.URL signedOriginal) = "https://host/a?token=secret" ∧
  ∃ r, checkRedirect ["Accept"] redirected [signedOriginal] = Return r ∧
       redirectTrace r = ["api: redirect GET https://host/a to https://other/b"].
Proof.
  split; [reflexivity |].
  destruct (checkRedirect_traces_no_query ["Accept"] redirected signedOriginal [])
    as (r & from & to & Hrun & _); [simpl; lia |].
  exists r. split; [exact Hrun |].
  vm_compute in Hrun. injection Hrun as <-. reflexivity.
Defined.

Lemma checkRedirect_spelling_sample :
  CanonicalMIMEHeaderKey "authorization" = "Authorization" ∧
  otherOrigin redirected spelledOriginal = true ∧
  ∃ r, checkRedirect ["Authorization"; "authorization"] redirected [spelledOriginal]
       = Return r ∧
       redirectErr r = None ∧
       Request.Header (redirectReq r) !! "Authorization" = Some ["Basic abcd"].
Proof.
  split; [reflexivity |]. split; [reflexivity |].
  apply (checkRedirect_guard_is_by_spelling ["Authorization"; "authorization"]
           redirected spelledOriginal [] "authorization").
  - simpl; lia.
  - apply list_elem_of_further, list_elem_of_here.
  - discriminate.
  - reflexivity.
Defined.

Lemma Do_opens_the_record_sample :
  ∃ w',
    Do statsOn lib start0 (Some download, None) original noWorld
    = Return (w', {| doRes := Some download; doErr := None;
                     doBody := Some (countingResponse download) |}) ∧
    httpTransfers w' = <[Response.addr download := openedRecord]> ∅ ∧
    httpTransferBuckets w' = ∅.
Proof.
  apply (Do_opens_the_record_of_the_response statsOn lib start0 download original noWorld).
  reflexivity.
Defined.

Lemma Read_writes_sample :
  httpTransfers firstEOF.1.2 !! Response.addr download
  = Some {| requestStats := requestStats openedRecord;
            responseStats := {| HeaderSize := len responseDump; BodySize := 0;
                                Start := start0; Stop := start0 + 10 |} |} ∧
  ∃ t, httpTransfers opened !! Response.addr download = Some t ∧
       HeaderSize (responseStats t) = len responseDump ∧
       Start (responseStats t) = start0.
Proof.
  assert (H : httpTransfers firstEOF.1.2 !! Response.addr download
              = Some {| requestStats := requestStats openedRecord;
                        responseStats := {| HeaderSize := len responseDump; BodySize := 0;
                                            Start := start0; Stop := start0 + 10 |} |})
    by (vm_compute; reflexivity).
  split; [exact H |].
  destruct (Read_writes_only_BodySize_and_Stop statsOn (start0 + 10) endOfStream
              (countingResponse download) opened (Response.addr download) _ H)
    as (t & Ht & _ & Hsize & Hstart & _).
  exists t. split; [exact Ht |]. split; [symmetry; exact Hsize | symmetry; exact Hstart].
Defined.


Lemma registry_only_grows_sample :
  calls statsOn sampleCalls opened = Return afterSampleCalls ∧
  is_Some (httpTransfers opened !! Response.addr download) ∧
  is_Some (httpTransfers afterSampleCalls !! Response.addr download).
Proof.
  assert (H : calls statsOn sampleCalls opened = Return afterSampleCalls)
    by (vm_compute; reflexivity).
  assert (Hin : is_Some (httpTransfers opened !! Response.addr download))
    by (eexists; vm_compute; reflexivity).
  split; [exact H |]. split; [exact Hin |].
  exact (proj1 (registry_only_grows statsOn sampleCalls opened afterSampleCalls H) _ Hin).
Defined.

Lemma buckets_count_sample :
  calls statsOn sampleCalls opened = Return afterSampleCalls ∧
  bucketedCount (httpTransferBuckets afterSampleCalls)
  = (bucketedCount (httpTransferBuckets opened) + 1)%nat.
Proof.
  assert (H : calls statsOn sampleCalls opened = Return afterSampleCalls)
    by (vm_compute; reflexivity).
  split; [exact H |].
  exact (buckets_count_LogTransfer_calls statsOn sampleCalls opened afterSampleCalls H).
Defined.

Lemma transfer_sample :
  ∃ w1 body,
    Do statsOn lib start0 (Some download, None) original noWorld
    = Return (w1, {| doRes := Some download; doErr := None; doBody := Some body |}) ∧
    let s := Reads statsOn ([(start0 + 10, chunk)] ++ [(start0 + 20, endOfStream)]) body w1 in
    let w2 := LogTransfer statsOn "download" (Some download) s.1.2 in
    rangeOrder (httpTransferBuckets w2) ["download"] ∧
    ∃ w3,
      LogHttpStats statsOn reportEnv ["download"] w2
      = Return (w3,
                Some [summaryLine reportEnv;
                      statsLine "download"
                        {| requestStats := requestStats (openingRecord lib start0 download original);
                           responseStats :=
                             {| HeaderSize := dumpSize (DumpResponse lib download);
                                BodySize := int_wrap (countedBytes s.2);
                                Start := start0;
                                Stop := start0 + 20 |} |}
                        download]).
Proof.
  apply (transfer_from_Do_to_report statsOn lib reportEnv start0 download original
           "download" [(start0 + 10, chunk)] (start0 + 20) endOfStream noWorld
           "http-1445000000.log"); reflexivity.
Defined.


Lemma HttpClient_per_host_sample :
  ∃ client1 client2,
    cached (HttpClient_calls clientCalls noClients).1 "host" = Some client1 ∧
    cached (HttpClient_calls clientCalls noClients).1 "other:443" = Some client2 ∧
    DialTimeout client1 = DialTimeout client2 ∧
    instance client1 ≠ instance client2.
Proof.
  eexists _, _. split; [vm_compute; reflexivity |]. split; [vm_compute; reflexivity |].
  split; [reflexivity |].
  apply (HttpClient_one_client_per_host clientCalls "host" "other:443");
    [discriminate | vm_compute; reflexivity | vm_compute; reflexivity].
Defined.

Lemma isTraceableContent_sample :
  Contains "application/octet-stream; name=notes.text" "text" = true ∧
  isTraceableContent attachmentHeader = false.
Proof.
  split; [reflexivity |].
  destruct (isTraceableContent_reads_the_type attachmentHeader) as [_ H].
  rewrite (H "application/octet-stream" " name=notes.text" []); [reflexivity .. |].
  right. reflexivity.
Defined.
